(** * Minidisc: a verified model of [python/minidisc.py]

    The development follows the source top-down: the text primitives the
    program relies on ([str.split], [int], [str], [ipaddress.IPv4Address],
    [bytes.decode]), the [Service] record with its wire form, the client side
    ([list_services], [find_service]), the local registry
    ([_RegistryImpl]) and the HTTP handlers of [_MinidiscNode].

    A Python [str] is modelled by its UTF-8 bytes (a Rocq [string]); an
    [int] is a [Z]; a [dict[str, str]] is a [gmap string string]. *)

From Stdlib Require Import ZArith Lia Ascii String List Bool.
From stdpp Require Import base option list strings gmap.

Local Open Scope string_scope.
Local Open Scope list_scope.
Local Open Scope Z_scope.

(** ** Exceptions and results *)

(** The exception classes the program can let escape. [MinidiscError] is the
    module's own [Error]; it carries its message. *)
Inductive exn : Type :=
| AssertionError
| KeyError
| TypeError
| AttributeError
| ValueError
| UnicodeDecodeError
| JSONDecodeError
| ValidationError
| LookupError
| ConnectionRefusedError
| TimeoutError
| OSError
| RecursionError
| MinidiscError (msg : string).

#[global] Instance exn_eq_dec : EqDecision exn.
Proof. solve_decision. Defined.

(** Whether [except ValueError] catches the exception: [ValueError] and its
    subclasses among the classes above. *)
Definition is_ValueError (e : exn) : bool :=
  match e with
  | ValueError | UnicodeDecodeError | JSONDecodeError | ValidationError => true
  | _ => false
  end.

Inductive result (A : Type) : Type :=
| Ok (a : A)
| Raise (e : exn).
Arguments Ok {A} a.
Arguments Raise {A} e.

Definition rbind {A B} (m : result A) (k : A → result B) : result B :=
  match m with
  | Ok a => k a
  | Raise e => Raise e
  end.

Notation "x ←r m ; k" := (rbind m (λ x, k))
  (at level 100, m at next level, right associativity, only parsing).

(** ** Text primitives *)

Module Text.

Definition dquote : string := String "034"%char EmptyString.
Definition colon : ascii := ":"%char.
Definition dot : ascii := "."%char.

(** [s.split(sep, 1)] unpacked into two names: [None] when [sep] does not
    occur (the unpacking then raises [ValueError]). *)
Fixpoint split1 (sep : ascii) (s : string) : option (string * string) :=
  match s with
  | EmptyString => None
  | String c r =>
      if Ascii.eqb c sep then Some (EmptyString, r)
      else match split1 sep r with
           | Some (h, t) => Some (String c h, t)
           | None => None
           end
  end.

(** [s.split(sep)]: all the fields, at least one. *)
Fixpoint split_all (sep : ascii) (s : string) : list string :=
  match s with
  | EmptyString => [EmptyString]
  | String c r =>
      if Ascii.eqb c sep then EmptyString :: split_all sep r
      else match split_all sep r with
           | [] => [String c EmptyString]
           | p :: ps => String c p :: ps
           end
  end.

Fixpoint occurs (c : ascii) (s : string) : bool :=
  match s with
  | EmptyString => false
  | String d r => Ascii.eqb d c || occurs c r
  end.

Fixpoint all_chars (P : ascii → bool) (s : string) : bool :=
  match s with
  | EmptyString => true
  | String c r => P c && all_chars P r
  end.

(** Whether [sub] occurs in [s] ([sub in s]). *)
Fixpoint is_infix (sub s : string) : bool :=
  String.prefix sub s ||
  match s with
  | EmptyString => false
  | String _ r => is_infix sub r
  end.

Definition digit_val (c : ascii) : option Z :=
  let n := Z.of_nat (nat_of_ascii c) in
  if (48 <=? n) && (n <=? 57) then Some (n - 48) else None.

Definition is_digit (c : ascii) : bool :=
  match digit_val c with Some _ => true | None => false end.

Definition digit_char (d : Z) : ascii := ascii_of_nat (Z.to_nat (48 + d)).

(** The ASCII characters [int] skips as white space around a literal:
    tab, line feed, vertical tab, form feed, carriage return and space. *)
Definition is_space (c : ascii) : bool :=
  let n := Z.of_nat (nat_of_ascii c) in
  ((9 <=? n) && (n <=? 13)) || (n =? 32).

Fixpoint lstrip (s : string) : string :=
  match s with
  | String c r => if is_space c then lstrip r else s
  | EmptyString => EmptyString
  end.

Fixpoint rstrip (s : string) : string :=
  match s with
  | EmptyString => EmptyString
  | String c r =>
      match rstrip r with
      | EmptyString => if is_space c then EmptyString else String c EmptyString
      | r' => String c r'
      end
  end.

Definition strip (s : string) : string := rstrip (lstrip s).

(** The digits of an integer literal: a digit, then digits each optionally
    preceded by one underscore. *)
Fixpoint int_digits (acc : Z) (s : string) : option Z :=
  match s with
  | EmptyString => None
  | String c r =>
      match digit_val c with
      | None => None
      | Some d =>
          let acc' := acc * 10 + d in
          match r with
          | EmptyString => Some acc'
          | String u r' =>
              if Ascii.eqb u "_" then int_digits acc' r' else int_digits acc' r
          end
      end
  end.

(** The characters a literal is made of. *)
Definition literal_char (c : ascii) : bool :=
  is_digit c || Ascii.eqb c "_" || is_space c || Ascii.eqb c "+" || Ascii.eqb c "-".

(** The parse of a decimal literal in ASCII text: white space, an optional
    sign, the digits, white space. *)
Definition int_of_ascii (s : string) : option Z :=
  match strip s with
  | String c r =>
      if Ascii.eqb c "-" then Z.opp <$> int_digits 0 r
      else if Ascii.eqb c "+" then int_digits 0 r
      else int_digits 0 (String c r)
  | EmptyString => None
  end.

(** [str(n)] for [n >= 0], most significant digit first, in front of [acc]. *)
Fixpoint str_digits (fuel : nat) (n : Z) (acc : string) : string :=
  let acc' := String (digit_char (n mod 10)) acc in
  match fuel with
  | O => acc'
  | S f => if n <? 10 then acc' else str_digits f (n / 10) acc'
  end.

Definition py_str (z : Z) : string :=
  let n := Z.abs z in
  let body := str_digits (Z.to_nat (Z.log2 n)) n EmptyString in
  if z <? 0 then String "-" body else body.

(** One octet of a dotted quad, as [ipaddress] parses it: ASCII digits only,
    at most three of them, no leading zero, at most 255. *)
Definition parse_octet (o : string) : option Z :=
  match o with
  | EmptyString => None
  | String c r =>
      if negb (all_chars is_digit o) then None
      else if (3 <? String.length o)%nat then None
      else if Ascii.eqb c "0" && negb (String.eqb r EmptyString) then None
      else match int_digits 0 o with
           | Some v => if 255 <? v then None else Some v
           | None => None
           end
  end.

(** Whether [ipaddress.IPv4Address(s)] accepts the text [s]. *)
Definition is_ipv4 (s : string) : bool :=
  match split_all dot s with
  | [a; b; c; d] =>
      match parse_octet a, parse_octet b, parse_octet c, parse_octet d with
      | Some _, Some _, Some _, Some _ => true
      | _, _, _, _ => false
      end
  | _ => false
  end.

(** Well-formed UTF-8, as the strict decoder accepts it. *)
Definition byte (c : ascii) : Z := Z.of_nat (nat_of_ascii c).
Definition between (lo hi : Z) (c : ascii) : bool :=
  (lo <=? byte c) && (byte c <=? hi).
Definition cont : ascii → bool := between 128 191.

Fixpoint utf8_valid (s : string) : bool :=
  match s with
  | EmptyString => true
  | String a r =>
      if byte a <? 128 then utf8_valid r
      else match r with
      | String b r1 =>
          if between 194 223 a then cont b && utf8_valid r1
          else match r1 with
          | String c r2 =>
              if between 224 239 a then
                (if byte a =? 224 then between 160 191 b
                 else if byte a =? 237 then between 128 159 b
                 else cont b) && cont c && utf8_valid r2
              else match r2 with
              | String d r3 =>
                  between 240 244 a &&
                  (if byte a =? 240 then between 144 191 b
                   else if byte a =? 244 then between 128 143 b
                   else cont b) && cont c && cont d && utf8_valid r3
              | EmptyString => false
              end
          | EmptyString => false
          end
      | EmptyString => false
      end
  end.

(** [b.decode('utf-8')]: [None] stands for [UnicodeDecodeError]. *)
Definition decode_utf8 (b : string) : option string :=
  if utf8_valid b then Some b else None.

(** The interpreter's Unicode tables, for the code points from 127 up:
    whether one is white space ([Py_UNICODE_ISSPACE]) and which decimal
    digit it is, if any ([Py_UNICODE_TODECIMAL]). They vary with the Unicode
    version of the interpreter and are taken as given. *)
Class UnicodeTables : Type := {
  unicode_space : Z → bool;
  unicode_decimal : Z → option Z
}.

(** What the transformation below writes for a code point from 127 up: a
    space for white space, the ASCII digit for a decimal digit, and a
    question mark, where it stops, for anything else. *)
Definition emit `{UnicodeTables} (cp : Z) (tail : string) : string :=
  if unicode_space cp then String " " tail
  else match unicode_decimal cp with
       | Some d =>
           if (0 <=? d) && (d <? 10) then String (digit_char d) tail
           else "?"
       | None => "?"
       end.

(** The transformation [int] applies to text that is not all ASCII before
    it parses it: code points below 127 are kept, the others replaced as
    [emit] says. The text is read from its UTF-8 bytes; a [str] never holds
    a malformed sequence, for which a question mark is written here. *)
Fixpoint to_ascii `{UnicodeTables} (s : string) : string :=
  match s with
  | EmptyString => EmptyString
  | String a r =>
      if byte a <? 127 then String a (to_ascii r)
      else if byte a <? 128 then emit 127 (to_ascii r)
      else match r with
      | String b r1 =>
          if between 194 223 a && cont b then
            emit ((byte a - 192) * 64 + (byte b - 128)) (to_ascii r1)
          else match r1 with
          | String c r2 =>
              if between 224 239 a &&
                 (if byte a =? 224 then between 160 191 b
                  else if byte a =? 237 then between 128 159 b
                  else cont b) && cont c then
                emit ((byte a - 224) * 4096 + (byte b - 128) * 64 + (byte c - 128))
                     (to_ascii r2)
              else match r2 with
              | String d r3 =>
                  if between 240 244 a &&
                     (if byte a =? 240 then between 144 191 b
                      else if byte a =? 244 then between 128 143 b
                      else cont b) && cont c && cont d then
                    emit ((byte a - 240) * 262144 + (byte b - 128) * 4096
                          + (byte c - 128) * 64 + (byte d - 128))
                         (to_ascii r3)
                  else "?"
              | EmptyString => "?"
              end
          | EmptyString => "?"
          end
      | EmptyString => "?"
      end
  end.

Definition is_ascii (s : string) : bool := all_chars (λ c, byte c <? 128) s.

(** [int(s)] for a [str]: text that is all ASCII is parsed as it is, other
    text after the transformation above. [None] stands for [ValueError].
    The interpreter's limit on the number of digits
    ([sys.int_max_str_digits]) is not part of the model: conversions are as
    with the limit lifted. *)
Definition py_int `{UnicodeTables} (s : string) : option Z :=
  int_of_ascii (if is_ascii s then s else to_ascii s).

End Text.

Import Text.

(** Everything below is stated for any Unicode tables of the interpreter. *)
Section Interpreter.

Context {uni : UnicodeTables}.

(** ** Python values exchanged as JSON *)

#[local] Set Warnings "-register-all".

(** The values [json.loads] produces and [json.dumps] consumes. A float is
    kept as the text of its literal. *)
Inductive pyval : Type :=
| PNone
| PBool (b : bool)
| PInt (z : Z)
| PFloat (lit : string)
| PStr (s : string)
| PList (l : list pyval)
| PDict (d : gmap string pyval).

Definition as_str (v : pyval) : option string :=
  match v with PStr s => Some s | _ => None end.

(** ** The Service model *)

Record Service : Type := mkService {
  name : string;
  labels : gmap string string;
  addr_port : string * Z
}.

#[global] Instance Service_eq_dec : EqDecision Service.
Proof. solve_decision. Defined.

(** [Service.parse_addr_port] on a [str]: split at the first colon, check
    the host with [ipaddress.IPv4Address], convert the port with [int]. Each
    failure is a [ValueError] inside the validator. *)
Definition parse_addr_port_str (v : string) : option (string * Z) :=
  match split1 colon v with
  | None => None
  | Some (host, port) =>
      if is_ipv4 host then
        match py_int port with
        | Some p => Some (host, p)
        | None => None
        end
      else None
  end.

(** [Service.serialize_addr_port]. *)
Definition serialize_addr_port (v : string * Z) : string :=
  v.1 +:+ ":" +:+ py_str v.2.

(** [s.model_dump(by_alias=True)]: the dict with the wire keys. *)
Definition model_dump (s : Service) : gmap string pyval :=
  {[ "name" := PStr (name s);
     "labels" := PDict (PStr <$> labels s);
     "addrPort" := PStr (serialize_addr_port (addr_port s)) ]}.

Section Pydantic.

(** What pydantic's own validation of [tuple[str, int]] makes of a value the
    [before] validator hands through untouched (anything but a [str]). *)
Variable validate_tuple_str_int : pyval → option (string * Z).

Definition parse_addr_port (v : pyval) : option (string * Z) :=
  match v with
  | PStr s => parse_addr_port_str s
  | _ => validate_tuple_str_int v
  end.

(** A [dict[str, str]] field: every value must be a [str]. *)
Definition validate_labels (v : pyval) : option (gmap string string) :=
  match v with
  | PDict d =>
      if bool_decide (map_Forall (λ _ x, is_Some (as_str x)) d)
      then Some (omap as_str d) else None
  | _ => None
  end.

(** Validation of one element of [list[Service]] given as a dict. The
    address is looked up under its alias [addrPort] and, as the model is
    configured with [populate_by_name], under [addr_port] otherwise. Keys
    the model does not know are ignored. [None] stands for
    [ValidationError]. *)
Definition validate_service (v : pyval) : option Service :=
  match v with
  | PDict d =>
      n ← d !! "name" ≫= as_str;
      l ← d !! "labels" ≫= validate_labels;
      a ← match d !! "addrPort" with
          | Some x => Some x
          | None => d !! "addr_port"
          end ≫= parse_addr_port;
      Some (mkService n l a)
  | _ => None
  end.

(** [_ServiceList.validate_python(data)]. *)
Definition validate_service_list (data : pyval) : result (list Service) :=
  match data with
  | PList l =>
      match mapM validate_service l with
      | Some ss => Ok ss
      | None => Raise ValidationError
      end
  | _ => Raise ValidationError
  end.

End Pydantic.

(** ** The environment: network and mesh status *)

Record HTTPResponse : Type := mkResponse {
  status : Z;
  reason : string;
  payload : string
}.

(** One peer of the mesh status document. *)
Record PeerStatus : Type := mkPeer {
  Online : bool;
  PeerIPs : list string
}.

(** The mesh status document, in the shape the program reads it:
    [TailscaleIPs] and the values of [Peer], in the document's order. *)
Record IpnStatus : Type := mkIpn {
  TailscaleIPs : list string;
  Peer : list PeerStatus
}.

Definition DISCOVERY_PORT : Z := 28004.

Section Client.

(** [json.loads]: the value read, or the exception raised, which is
    [JSONDecodeError] for text that is not JSON and can be another, such as
    [RecursionError] for text nested too deep. *)
Variable json_loads : string → result pyval.
Variable validate_tuple_str_int : pyval → option (string * Z).
(** A [GET] of a path on [(addr, port)] with the 2 s timeout: the response,
    or the exception the connection raises. *)
Variable http_get : string → Z → string → result HTTPResponse.
(** [_read_ipn_status()]. *)
Variable _read_ipn_status : result IpnStatus.

Definition fetch_error_message (st : Z) (rsn : string) : string :=
  "Error fetching minidisc services, status " +:+ py_str st +:+
  ", reason " +:+ dquote +:+ rsn +:+ dquote.

(** [_get_remote_services] (lines 98-108): the request, the status check,
    then [read().decode('utf-8')], [json.loads] and the validation of
    [list[Service]]. *)
Definition _get_remote_services (addr : string) (port : Z)
    : result (list Service) :=
  response ←r http_get addr port "/services";
  if negb (status response =? 200) then
    Raise (MinidiscError (fetch_error_message (status response) (reason response)))
  else
    match decode_utf8 (payload response) with
    | None => Raise UnicodeDecodeError
    | Some body =>
        data ←r json_loads body;
        validate_service_list validate_tuple_str_int data
    end.

(** [_list_tailnet_addresses] (lines 261-275): the node's own addresses,
    then those of the peers that are online, IPv4 only. *)
Definition _list_tailnet_addresses : result (list string) :=
  ipn_status ←r _read_ipn_status;
  let all_addrs :=
    TailscaleIPs ipn_status ++
    concat ((λ peer, if Online peer then PeerIPs peer else []) <$> Peer ipn_status) in
  Ok (filter (λ addr, is_ipv4 addr = true) all_addrs).

(** [_get_own_tailnet_addresses] (lines 278-286). *)
Definition _get_own_tailnet_addresses : result string :=
  ipn_status ←r _read_ipn_status;
  match filter (λ ip, is_ipv4 ip = true) (TailscaleIPs ipn_status) with
  | ip :: _ => Ok ip
  | [] => Raise LookupError
  end.

(** What a fetch adds to the list being collected when its exception, if
    any, is one of [caught]: the Services received, nothing after a caught
    exception, and [None] when the exception escapes. *)
Definition contribution (caught : list exn) (r : result (list Service))
    : option (list Service) :=
  match r with
  | Ok part => Some part
  | Raise e => if bool_decide (e ∈ caught) then Some [] else None
  end.

(** The exceptions [list_services] catches around one fetch, and the one
    the [/services] handler catches. *)
Definition swallowed : list exn := [ConnectionRefusedError; TimeoutError].
Definition evicting : list exn := [ConnectionRefusedError].

Definition is_refused {A} (r : result A) : bool :=
  match r with
  | Raise ConnectionRefusedError => true
  | _ => false
  end.

(** Whether [list_services] goes past a fetch without stopping or adding. *)
Definition skipped (r : result (list Service)) : bool :=
  match r with
  | Raise ConnectionRefusedError | Raise TimeoutError => true
  | _ => false
  end.

(** The loop of [list_services] over the remaining addresses, [services]
    being what was collected so far. *)
Fixpoint list_services_loop (addrs : list string) (services : list Service)
    : result (list Service) :=
  match addrs with
  | [] => Ok services
  | addr :: rest =>
      match _get_remote_services addr DISCOVERY_PORT with
      | Ok part => list_services_loop rest (services ++ part)
      | Raise ConnectionRefusedError => list_services_loop rest services
      | Raise TimeoutError => list_services_loop rest services
      | Raise e => Raise e
      end
  end.

(** [list_services] (lines 45-55). *)
Definition list_services : result (list Service) :=
  addrs ←r _list_tailnet_addresses;
  list_services_loop addrs [].

(** [_labels_match] (lines 91-95): no item of [want] may differ from what
    [have.get] gives for its key. *)
Definition _labels_match (want have : gmap string string) : bool :=
  forallb (λ kv, negb (bool_decide (have !! kv.1 ≠ Some kv.2)))
          (map_to_list want).

(** The match [find_service] looks for, in the words of the specification:
    the name is the requested one and every requested label is present with
    the same value. *)
Definition label_superset (want have : gmap string string) : Prop :=
  ∀ k v, want !! k = Some v → have !! k = Some v.

Definition service_matches (nm : string) (lbls : gmap string string)
    (s : Service) : Prop :=
  name s = nm ∧ label_superset lbls (labels s).

(** The loop of [find_service] (lines 59-62). *)
Fixpoint find_service_loop (services : list Service) (nm : string)
    (lbls : gmap string string) : option (string * Z) :=
  match services with
  | [] => None
  | service :: rest =>
      if String.eqb nm (name service) && _labels_match lbls (labels service)
      then Some (addr_port service)
      else find_service_loop rest nm lbls
  end.

(** [find_service] (lines 58-62). *)
Definition find_service (nm : string) (lbls : gmap string string)
    : result (option (string * Z)) :=
  services ←r list_services;
  Ok (find_service_loop services nm lbls).

End Client.

(** ** The local registry *)

Record _RegistryImpl : Type := mkRegistry {
  reg_addr : string;
  _services : list Service
}.

Definition service_port (service : Service) : Z := (addr_port service).2.

Definition port_is (port : Z) (service : Service) : Prop :=
  service_port service = port.

#[global] Instance port_is_dec port service : Decision (port_is port service).
Proof. unfold port_is. apply _. Defined.

(** [Service(name=..., labels=..., addr_port=f'{addr}:{port}')]: the address
    goes through the [before] validator as a [str]. *)
Definition new_service (addr : string) (port : Z) (nm : string)
    (lbls : gmap string string) : result Service :=
  match parse_addr_port_str (addr +:+ ":" +:+ py_str port) with
  | Some ap => Ok (mkService nm lbls ap)
  | None => Raise ValidationError
  end.

(** [advertise_service] (lines 118-130): the assertion, the new entry, then
    the [for]/[else] loop, which overwrites the first entry of the port or
    appends. The registry is returned with the outcome; it is the one passed
    in whenever the call raises. *)
Definition advertise_service (self : _RegistryImpl) (port : Z) (nm : string)
    (lbls : gmap string string) : result unit * _RegistryImpl :=
  if negb ((0 <? port) && (port <? 2 ^ 16)) then (Raise AssertionError, self)
  else
    match new_service (reg_addr self) port nm lbls with
    | Raise e => (Raise e, self)
    | Ok new_entry =>
        match list_find (port_is port) (_services self) with
        | Some (i, _) =>
            (Ok (), mkRegistry (reg_addr self) (<[i := new_entry]> (_services self)))
        | None =>
            (Ok (), mkRegistry (reg_addr self) (_services self ++ [new_entry]))
        end
    end.

(** [unlist_service] (lines 132-138): pops the first entry of the port, or
    raises [KeyError]. *)
Definition unlist_service (self : _RegistryImpl) (port : Z)
    : result unit * _RegistryImpl :=
  match list_find (port_is port) (_services self) with
  | Some (i, _) => (Ok (), mkRegistry (reg_addr self) (delete i (_services self)))
  | None => (Raise KeyError, self)
  end.

(** The [services] property: a snapshot of the list. *)
Definition services (self : _RegistryImpl) : list Service := _services self.

Definition ports (self : _RegistryImpl) : list Z :=
  service_port <$> _services self.

(** The shapes a registry can take after one [advertise_service]. *)
Inductive advertised (self : _RegistryImpl) (p : Z) (e : Service) : result unit * _RegistryImpl → Prop :=
| adv_raised (ex : exn) : advertised self p e (Raise ex, self)
| adv_replaced pre old post :
    _services self = pre ++ old :: post →
    service_port old = p →
    Forall (λ s, service_port s ≠ p) pre →
    advertised self p e
      (Ok (), mkRegistry (reg_addr self) (<[length pre := e]> (_services self)))
| adv_appended :
    Forall (λ s, service_port s ≠ p) (_services self) →
    advertised self p e (Ok (), mkRegistry (reg_addr self) (_services self ++ [e])).

(** The shapes a registry can take after one [unlist_service]. *)
Inductive unlisted (self : _RegistryImpl) (p : Z) : result unit * _RegistryImpl → Prop :=
| unl_missing :
    Forall (λ s, service_port s ≠ p) (_services self) →
    unlisted self p (Raise KeyError, self)
| unl_removed pre old post :
    _services self = pre ++ old :: post →
    service_port old = p →
    Forall (λ s, service_port s ≠ p) pre →
    unlisted self p
      (Ok (), mkRegistry (reg_addr self) (delete (length pre) (_services self))).

(** A call on the [Registry] protocol, and a history of calls applied in
    order; a call that raises leaves the registry as it was. *)
Inductive RegistryCall : Type :=
| Advertise (port : Z) (nm : string) (lbls : gmap string string)
| Unlist (port : Z).

Definition call_port (c : RegistryCall) : Z :=
  match c with
  | Advertise port _ _ => port
  | Unlist port => port
  end.

Definition registry_call (self : _RegistryImpl) (c : RegistryCall)
    : _RegistryImpl :=
  match c with
  | Advertise port nm lbls => (advertise_service self port nm lbls).2
  | Unlist port => (unlist_service self port).2
  end.

Definition registry_run (self : _RegistryImpl) (cs : list RegistryCall)
    : _RegistryImpl :=
  foldl registry_call self cs.

(** [_RegistryImpl(addr)]. *)
Definition new_registry (addr : string) : _RegistryImpl := mkRegistry addr [].

(** ** The node and its HTTP handlers *)

Record _MinidiscNode : Type := mkNode {
  _addr : string;
  _registry : _RegistryImpl;
  _delegates : list (string * Z)
}.

(** [_MinidiscNode(addr, registry)]. *)
Definition new_node (addr : string) (registry : _RegistryImpl) : _MinidiscNode :=
  mkNode addr registry [].

Definition set_delegates (self : _MinidiscNode) (ds : list (string * Z))
    : _MinidiscNode :=
  mkNode (_addr self) (_registry self) ds.

(** What a handler reads of a request: the path, the [Content-Length]
    header when present, and the bytes still to be read from [rfile]. *)
Record Request : Type := mkRequest {
  path : string;
  content_length : option string;
  rfile : string
}.

(** What a handler sends: [send_response] with its headers and body, or
    [send_error]. *)
Inductive Reply : Type :=
| SendResponse (code : Z) (headers : list (string * string)) (body : string)
| SendError (code : Z) (message : string).

Definition reply_code (r : Reply) : Z :=
  match r with
  | SendResponse code _ _ => code
  | SendError code _ => code
  end.

(** [l.remove(x)]: drops the first element equal to [x]; [None] stands for
    the [ValueError] of a missing element. *)
Fixpoint list_remove_first `{EqDecision A} (x : A) (l : list A) : option (list A) :=
  match l with
  | [] => None
  | y :: r =>
      if decide (y = x) then Some r
      else cons y <$> list_remove_first x r
  end.

(** [rfile.read(n)] on a buffered reader holding [data]. *)
Definition read (data : string) (n : Z) : result string :=
  if n <? -1 then Raise ValueError
  else if n =? -1 then Ok data
  else Ok (String.substring 0 (Z.to_nat n) data).

Section Node.

Variable json_loads : string → result pyval.
(** [json.dumps]. *)
Variable json_dumps : pyval → string.
Variable validate_tuple_str_int : pyval → option (string * Z).
Variable http_get : string → Z → string → result HTTPResponse.

(** The loop of the [/services] branch over the copied delegates. The
    node is threaded through because an eviction mutates [_delegates]. *)
Fixpoint services_loop (self : _MinidiscNode) (delegates : list (string * Z))
    (services : list Service) : result (list Service) * _MinidiscNode :=
  match delegates with
  | [] => (Ok services, self)
  | (addr, port) :: rest =>
      match _get_remote_services json_loads validate_tuple_str_int http_get addr port with
      | Ok add => services_loop self rest (services ++ add)
      | Raise ConnectionRefusedError =>
          match list_remove_first (addr, port) (_delegates self) with
          | Some ds => services_loop (set_delegates self ds) rest services
          | None => (Raise ValueError, self)
          end
      | Raise e => (Raise e, self)
      end
  end.

(** [_handle_http_get] (lines 204-227). The outcome is the reply sent, or
    the exception that leaves the handler before anything is sent. *)
Definition _handle_http_get (self : _MinidiscNode) (handler : Request)
    : result Reply * _MinidiscNode :=
  if String.eqb (path handler) "/ping" then
    (Ok (SendResponse 200 [] ""), self)
  else if String.eqb (path handler) "/services" then
    let services0 := services (_registry self) in
    let delegates := _delegates self in
    match services_loop self delegates services0 with
    | (Raise e, self') => (Raise e, self')
    | (Ok all, self') =>
        let data := json_dumps (PList ((λ s, PDict (model_dump s)) <$> all)) in
        (Ok (SendResponse 200 [("Content-type", "application/json")] data), self')
    end
  else (Ok (SendError 404 "Path not found"), self).

(** [data['addrPort']] on a value from [json.loads]. *)
Definition get_addrPort (data : pyval) : result pyval :=
  match data with
  | PDict d =>
      match d !! "addrPort" with
      | Some v => Ok v
      | None => Raise KeyError
      end
  | _ => Raise TypeError
  end.

(** [v.split(':', 1)] unpacked into [addr, port]. *)
Definition split_addr_port (v : pyval) : result (string * string) :=
  match v with
  | PStr s =>
      match split1 colon s with
      | Some hp => Ok hp
      | None => Raise ValueError
      end
  | _ => Raise AttributeError
  end.

Definition int_of_header (h : option string) : result Z :=
  match h with
  | None => Raise TypeError
  | Some t => match py_int t with Some n => Ok n | None => Raise ValueError end
  end.

(** [_handle_http_post] (lines 229-246). Only [json.loads] is inside the
    [try], whose [except ValueError] answers 400 and lets any other
    exception pass; reading the length, reading and decoding the body come
    before it, the access to [addrPort], the split and [int] after it. *)
Definition _handle_http_post (self : _MinidiscNode) (handler : Request)
    : result Reply * _MinidiscNode :=
  if negb (String.eqb (path handler) "/add-delegate") then
    (Ok (SendError 404 "Path not found"), self)
  else
    match
      (length ←r int_of_header (content_length handler);
       raw ←r read (rfile handler) length;
       match decode_utf8 raw with
       | Some body => Ok body
       | None => Raise UnicodeDecodeError
       end)
    with
    | Raise e => (Raise e, self)
    | Ok body =>
        match json_loads body with
        | Raise e =>
            if is_ValueError e then (Ok (SendError 400 "Bad payload"), self)
            else (Raise e, self)
        | Ok data =>
            match
              (v ←r get_addrPort data;
               hp ←r split_addr_port v;
               match py_int hp.2 with
               | Some port => Ok (hp.1, port)
               | None => Raise ValueError
               end)
            with
            | Raise e => (Raise e, self)
            | Ok entry =>
                (Ok (SendResponse 200 [] ""),
                 set_delegates self (_delegates self ++ [entry]))
            end
        end
    end.

(** The request [_add_delegate] sends: [http.client] adds the
    [Content-Length] of the body. *)
Definition add_delegate_request (addr : string) (port : Z) : Request :=
  let body := json_dumps (PDict {[ "addrPort" := PStr (addr +:+ ":" +:+ py_str port) ]}) in
  mkRequest "/add-delegate"
            (Some (py_str (Z.of_nat (String.length body)))) body.

(** [_add_delegate(addr, port)] against the process [leader] that serves
    port 28004 of [addr]. A handler that raises sends nothing and the
    connection is dropped, which the client sees as an [OSError]. *)
Definition _add_delegate (addr : string) (port : Z) (leader : _MinidiscNode)
    : result unit * _MinidiscNode :=
  if port =? 28004 then (Raise AssertionError, leader)
  else
    match _handle_http_post leader (add_delegate_request addr port) with
    | (Ok resp, leader') =>
        if negb (reply_code resp =? 200) then (Raise OSError, leader')
        else (Ok (), leader')
    | (Raise _, leader') => (Raise OSError, leader')
    end.

(** What happens to a leader: a delegate on the same address registers its
    bound port through [_add_delegate], or a peer asks for [/services]. *)
Inductive LeaderEvent : Type :=
| Registers (port : Z)
| GetServices.

Definition leader_step (self : _MinidiscNode) (ev : LeaderEvent) : _MinidiscNode :=
  match ev with
  | Registers port => (_add_delegate (_addr self) port self).2
  | GetServices => (_handle_http_get self (mkRequest "/services" None "")).2
  end.

Definition leader_run (self : _MinidiscNode) (evs : list LeaderEvent)
    : _MinidiscNode :=
  foldl leader_step self evs.

(** What the invariant of [_delegates] asks of an entry. *)
Definition own_delegate (own : string) (d : string * Z) : Prop :=
  d.1 = own ∧ d.2 ≠ 28004.

(** [json.dumps] writes the registration of [(addr, port)] as UTF-8 text
    that [json.loads] reads back as the same dict. *)
Definition codec_ok_for (addr : string) (port : Z) : Prop :=
  let v := PDict {[ "addrPort" := PStr (addr +:+ ":" +:+ py_str port) ]} in
  utf8_valid (json_dumps v) = true ∧ json_loads (json_dumps v) = Ok v.

Definition event_codec_ok (own : string) (ev : LeaderEvent) : Prop :=
  match ev with
  | Registers port => codec_ok_for own port
  | GetServices => True
  end.

End Node.

(** ** Starting a registry *)

(** What every entry of a registry on [addr] satisfies. *)
Definition entry_ok (addr : string) (s : Service) : Prop :=
  (addr_port s).1 = addr ∧ 0 < service_port s < 65536.

(** [start_registry] (lines 77-82): the node's own address, a registry and
    a node on it. The node, which the source hands to a thread, is returned
    beside the registry. *)
Definition start_registry (_read_ipn_status : result IpnStatus)
    : result (_RegistryImpl * _MinidiscNode) :=
  addr ←r _get_own_tailnet_addresses _read_ipn_status;
  let registry := new_registry addr in
  let node := new_node addr registry in
  Ok (registry, node).

End Interpreter.

(** ** Scenarios

    Concrete environments for the statements below. [json.loads] and
    [json.dumps] are given on the texts and values a scenario exchanges. *)

Module Scenario.

(** The scenarios exchange ASCII text only, so the Unicode tables are never
    consulted; they are taken empty. *)
Definition tables : UnicodeTables :=
  {| unicode_space := λ _, false; unicode_decimal := λ _, None |}.

#[local] Existing Instance tables.

Definition A : string := "100.64.0.1".

Definition q (s : string) : string := dquote +:+ s +:+ dquote.

Definition x : Service := mkService "x" ∅ (A, 10).
Definition y : Service := mkService "y" {[ "env" := "prod" ]} (A, 20).

(** The JSON texts of [[x]], of [[y]] and of [[x, y]]. *)
Definition x_text : string :=
  "{" +:+ q "name" +:+ ": " +:+ q "x" +:+ ", " +:+ q "labels" +:+ ": {}, " +:+
  q "addrPort" +:+ ": " +:+ q "100.64.0.1:10" +:+ "}".
Definition y_text : string :=
  "{" +:+ q "name" +:+ ": " +:+ q "y" +:+ ", " +:+ q "labels" +:+ ": {" +:+
  q "env" +:+ ": " +:+ q "prod" +:+ "}, " +:+
  q "addrPort" +:+ ": " +:+ q "100.64.0.1:20" +:+ "}".
Definition only_x_text : string := "[" +:+ x_text +:+ "]".
Definition only_y_text : string := "[" +:+ y_text +:+ "]".
Definition x_y_text : string := "[" +:+ x_text +:+ ", " +:+ y_text +:+ "]".

(** The JSON text of [{"addrPort": s}], for [s] free of escapes. *)
Definition addrPort_text (s : string) : string :=
  "{" +:+ q "addrPort" +:+ ": " +:+ q s +:+ "}".

Definition dump (s : Service) : pyval := PDict (model_dump s).

(** No scenario sends an address that is not a string. *)
Definition validate_tuple_str_int (v : pyval) : option (string * Z) := None.

Definition json_loads (text : string) : result pyval :=
  if String.eqb text only_x_text then Ok (PList [dump x])
  else if String.eqb text only_y_text then Ok (PList [dump y])
  else if String.eqb text x_y_text then Ok (PList [dump x; dump y])
  else if String.eqb text "{}" then Ok (PDict ∅)
  else if String.eqb text (addrPort_text "100.64.0.1:40000")
    then Ok (PDict {[ "addrPort" := PStr "100.64.0.1:40000" ]})
  else if String.eqb text (addrPort_text "100.64.0.1:40001")
    then Ok (PDict {[ "addrPort" := PStr "100.64.0.1:40001" ]})
  else if String.eqb text (addrPort_text "10.0.0.9:28004")
    then Ok (PDict {[ "addrPort" := PStr "10.0.0.9:28004" ]})
  else Raise JSONDecodeError.

Definition json_dumps (v : pyval) : string :=
  match v with
  | PDict obj =>
      match obj !! "addrPort" with
      | Some (PStr s) => addrPort_text s
      | _ => "{}"
      end
  | PList l =>
      match mapM (validate_service validate_tuple_str_int) l with
      | Some ss =>
          if bool_decide (ss = []) then "[]"
          else if bool_decide (ss = [x]) then only_x_text
          else if bool_decide (ss = [y]) then only_y_text
          else if bool_decide (ss = [x; y]) then x_y_text
          else "null"
      | None => "null"
      end
  | _ => "null"
  end.

Definition respond (text : string) : result HTTPResponse :=
  Ok (mkResponse 200 "OK" text).

(** On [A]: a leader on 28004 answering [[x, y]], a delegate on 40001
    answering [[y]], nothing on any other port. *)
Definition net (addr : string) (port : Z) (path : string) : result HTTPResponse :=
  if port =? 28004 then respond x_y_text
  else if port =? 40001 then respond only_y_text
  else Raise ConnectionRefusedError.

Definition net_timeout (addr : string) (port : Z) (path : string)
    : result HTTPResponse := Raise TimeoutError.

Definition net_503 (addr : string) (port : Z) (path : string)
    : result HTTPResponse := Ok (mkResponse 503 "Service Unavailable" "").

Definition net_garbage (addr : string) (port : Z) (path : string)
    : result HTTPResponse := respond "<html>".

Definition ipn (addr : string) : result IpnStatus := Ok (mkIpn [addr] []).

(** A leader on [A] advertising [x], with two registered delegates. *)
Definition leader : _MinidiscNode :=
  mkNode A (mkRegistry A [x]) [(A, 40000); (A, 40001)].

Definition fresh_leader : _MinidiscNode := new_node A (new_registry A).

Definition get_services : Request := mkRequest "/services" None "".

Definition post (body : string) : Request :=
  mkRequest "/add-delegate" (Some (py_str (Z.of_nat (String.length body)))) body.

End Scenario.

(** A mesh status with an IPv6 and an IPv4 address for the node, a peer
    that is online and one that is not; and registries to call. *)
Module Sample.

Definition status : IpnStatus :=
  mkIpn ["fd7a:115c:a1e0::1"; "100.64.0.1"]
        [mkPeer true ["100.64.0.2"; "fd7a:115c:a1e0::2"];
         mkPeer false ["100.64.0.3"]].

Definition no_ipv4 : IpnStatus := mkIpn ["fd7a:115c:a1e0::1"] [].

Definition registry : _RegistryImpl := mkRegistry Scenario.A [Scenario.x].

Definition lone_leader : _MinidiscNode := mkNode Scenario.A registry [].

End Sample.

(** * Properties *)

Section Verified.

Context {uni : UnicodeTables}.

(** ** The text primitives on sample inputs *)

Example py_int_ex : py_int " +1_000 " = Some 1000 ∧ py_int "-42" = Some (-42)
  ∧ py_int "1__0" = None ∧ py_int "" = None ∧ py_int "12_" = None.
Proof. repeat split; reflexivity. Qed.

Example py_str_ex : py_str 28004 = "28004" ∧ py_str 0 = "0" ∧ py_str (-7) = "-7"
  ∧ py_str 1000 = "1000" ∧ py_str 9 = "9" ∧ py_str 10 = "10".
Proof. repeat split; reflexivity. Qed.

Example is_ipv4_ex : is_ipv4 "100.64.0.1" = true ∧ is_ipv4 "1.2.3" = false
  ∧ is_ipv4 "01.2.3.4" = false ∧ is_ipv4 "256.1.1.1" = false
  ∧ is_ipv4 "fd7a:115c::1" = false ∧ is_ipv4 "0.0.0.0" = true.
Proof. repeat split; reflexivity. Qed.

Example split1_ex : split1 colon "1.2.3.4:80" = Some ("1.2.3.4", "80")
  ∧ split1 colon "a:b:c" = Some ("a", "b:c") ∧ split1 colon "abc" = None.
Proof. repeat split; reflexivity. Qed.

(** ** Facts about the text primitives *)

Section TextFacts.

Lemma split1_append (sep : ascii) (h t : string) :
  occurs sep h = false →
  split1 sep (h +:+ String sep t) = Some (h, t).
Proof.
  induction h as [|c h IH]; intros Hocc.
  - change (split1 sep (String sep t) = Some (EmptyString, t)).
    cbn [split1]. by rewrite Ascii.eqb_refl.
  - change (split1 sep (String c (h +:+ String sep t)) = Some (String c h, t)).
    cbn [occurs] in Hocc. apply orb_false_iff in Hocc as [Hc Hh].
    cbn [split1]. by rewrite Hc, (IH Hh).
Qed.

Lemma split_all_nonempty (sep : ascii) (s : string) : split_all sep s ≠ [].
Proof.
  induction s as [|c r IH]; simpl; first done.
  destruct (Ascii.eqb c sep); first done.
  by destruct (split_all sep r).
Qed.

Lemma is_digit_not (c d : ascii) :
  is_digit c = true → is_digit d = false → Ascii.eqb c d = false.
Proof.
  intros Hc Hd. destruct (Ascii.eqb_spec c d) as [->|]; congruence.
Qed.

Lemma digits_fields_no_char (sep x : ascii) (s : string) :
  is_digit x = false → Ascii.eqb sep x = false →
  Forall (λ p, all_chars is_digit p = true) (split_all sep s) →
  occurs x s = false.
Proof.
  intros Hx Hsep. induction s as [|c r IH]; simpl; first done.
  destruct (Ascii.eqb_spec c sep) as [->|Hne].
  - intros Hall. inversion Hall; subst. rewrite Hsep. simpl. by apply IH.
  - pose proof (split_all_nonempty sep r) as Hnil.
    destruct (split_all sep r) as [|p ps]; first done.
    intros Hall. inversion Hall as [|? ? Hhd Htl]; subst.
    simpl in Hhd. apply andb_true_iff in Hhd as [Hc Hp].
    rewrite (is_digit_not c x Hc Hx). simpl. apply IH. by constructor.
Qed.

Lemma parse_octet_digits (o : string) (v : Z) :
  parse_octet o = Some v → all_chars is_digit o = true.
Proof.
  unfold parse_octet. destruct o as [|c r]; first done.
  destruct (all_chars is_digit (String c r)); [done|simpl; done].
Qed.

Lemma is_ipv4_no_colon (s : string) :
  is_ipv4 s = true → occurs colon s = false.
Proof.
  unfold is_ipv4. intros H.
  apply (digits_fields_no_char dot colon); [done..|].
  destruct (split_all dot s) as [|a [|b [|c [|d [|? ?]]]]]; try done.
  destruct (parse_octet a) eqn:Ha; try done.
  destruct (parse_octet b) eqn:Hb; try done.
  destruct (parse_octet c) eqn:Hc; try done.
  destruct (parse_octet d) eqn:Hd; try done.
  repeat constructor; eauto using parse_octet_digits.
Qed.

(** The ten decimal digits. *)
Lemma digit_cases (d : Z) :
  0 ≤ d < 10 →
  d = 0 ∨ d = 1 ∨ d = 2 ∨ d = 3 ∨ d = 4 ∨ d = 5 ∨ d = 6 ∨ d = 7 ∨ d = 8 ∨ d = 9.
Proof. lia. Qed.

Ltac each_digit d H :=
  destruct (digit_cases d H) as
    [->|[->|[->|[->|[->|[->|[->|[->|[->| ->]]]]]]]]]; try reflexivity.

Lemma digit_val_char (d : Z) : 0 ≤ d < 10 → digit_val (digit_char d) = Some d.
Proof. intros H. each_digit d H. Qed.

Lemma digit_char_plain (d : Z) :
  0 ≤ d < 10 →
  is_space (digit_char d) = false ∧ Ascii.eqb (digit_char d) "_" = false
  ∧ Ascii.eqb (digit_char d) "-" = false ∧ Ascii.eqb (digit_char d) "+" = false.
Proof. intros H. each_digit d H; repeat split; reflexivity. Qed.

Lemma int_digits_step (a d : Z) (c x : ascii) (rest : string) :
  0 ≤ d < 10 → Ascii.eqb x "_" = false →
  int_digits a (String (digit_char d) (String x rest))
  = int_digits (a * 10 + d) (String x rest).
Proof.
  intros Hd Hx. cbn [int_digits]. rewrite (digit_val_char d Hd). by rewrite Hx.
Qed.

Lemma int_digits_str_digits (fuel : nat) : ∀ (n d : Z) (rest : string),
  0 ≤ n < 10 ^ Z.of_nat (S fuel) → 0 ≤ d < 10 →
  int_digits 0 (str_digits fuel n (String (digit_char d) rest))
  = int_digits n (String (digit_char d) rest).
Proof.
  induction fuel as [|f IH]; intros n d rest Hn Hd.
  - change (10 ^ Z.of_nat 1) with 10 in Hn. cbn [str_digits].
    rewrite Z.mod_small by lia.
    rewrite (int_digits_step 0 n "0") by (done || apply (digit_char_plain d Hd)).
    by rewrite Z.mul_0_l, Z.add_0_l.
  - cbn [str_digits]. destruct (Z.ltb_spec n 10) as [Hlt|Hge].
    + rewrite Z.mod_small by lia.
      rewrite (int_digits_step 0 n "0") by (lia || apply (digit_char_plain d Hd)).
      by rewrite Z.mul_0_l, Z.add_0_l.
    + assert (Hq : 0 ≤ n / 10 < 10 ^ Z.of_nat (S f)).
      { split; first (apply Z.div_pos; lia).
        apply Z.div_lt_upper_bound; first lia.
        replace (Z.of_nat (S (S f))) with (Z.succ (Z.of_nat (S f))) in Hn by lia.
        rewrite Z.pow_succ_r in Hn by lia. lia. }
      assert (Hm : 0 ≤ n mod 10 < 10) by (apply Z.mod_pos_bound; lia).
      rewrite (IH (n / 10) (n mod 10) _ Hq Hm).
      rewrite (int_digits_step _ _ "0") by (done || apply (digit_char_plain d Hd)).
      f_equal; pose proof (Z.div_mod n 10); lia.
Qed.

Lemma int_digits_str_digits_end (fuel : nat) (n : Z) :
  0 ≤ n < 10 ^ Z.of_nat (S fuel) →
  int_digits 0 (str_digits fuel n EmptyString) = Some n.
Proof.
  intros Hn.
  assert (Hlast : ∀ a d, 0 ≤ d < 10 →
            int_digits a (String (digit_char d) EmptyString) = Some (a * 10 + d)).
  { intros a d Hd. cbn [int_digits]. by rewrite (digit_val_char d Hd). }
  destruct fuel as [|f]; cbn [str_digits].
  - change (10 ^ Z.of_nat 1) with 10 in Hn.
    rewrite Z.mod_small, Hlast by lia. f_equal; lia.
  - destruct (Z.ltb_spec n 10) as [Hlt|Hge].
    + rewrite Z.mod_small, Hlast by lia. f_equal; lia.
    + assert (Hq : 0 ≤ n / 10 < 10 ^ Z.of_nat (S f)).
      { split; first (apply Z.div_pos; lia).
        apply Z.div_lt_upper_bound; first lia.
        replace (Z.of_nat (S (S f))) with (Z.succ (Z.of_nat (S f))) in Hn by lia.
        rewrite Z.pow_succ_r in Hn by lia. lia. }
      assert (Hm : 0 ≤ n mod 10 < 10) by (apply Z.mod_pos_bound; lia).
      rewrite (int_digits_str_digits f _ _ _ Hq Hm), Hlast by done.
      f_equal; pose proof (Z.div_mod n 10); lia.
Qed.

Lemma fuel_enough (n : Z) :
  0 ≤ n → 0 ≤ n < 10 ^ Z.of_nat (S (Z.to_nat (Z.log2 n))).
Proof.
  intros Hn. split; first done.
  pose proof (Z.log2_nonneg n) as Hl.
  replace (Z.of_nat (S (Z.to_nat (Z.log2 n)))) with (Z.succ (Z.log2 n)) by lia.
  destruct (Z.eq_dec n 0) as [->|Hne].
  - reflexivity.
  - pose proof (Z.log2_spec n ltac:(lia)) as [_ Hup].
    eapply Z.lt_le_trans; first exact Hup.
    apply Z.pow_le_mono_l. lia.
Qed.

(** The text [str_digits] writes holds digits only. *)
Lemma str_digits_plain (fuel : nat) : ∀ (n : Z) (acc : string),
  0 ≤ n → all_chars (λ c, negb (is_space c)) acc = true →
  all_chars (λ c, negb (is_space c)) (str_digits fuel n acc) = true.
Proof.
  induction fuel as [|f IH]; intros n acc Hn Hacc;
    assert (Hm : 0 ≤ n mod 10 < 10) by (apply Z.mod_pos_bound; lia);
    pose proof (digit_char_plain _ Hm) as [Hsp _].
  - cbn [str_digits all_chars]. by rewrite Hsp, Hacc.
  - cbn [str_digits]. destruct (n <? 10).
    + cbn [all_chars]. by rewrite Hsp, Hacc.
    + apply IH; first (apply Z.div_pos; lia).
      cbn [all_chars]. by rewrite Hsp, Hacc.
Qed.

Lemma str_digits_head (fuel : nat) : ∀ (n : Z) (acc : string),
  0 ≤ n → ∃ d r, 0 ≤ d < 10 ∧ str_digits fuel n acc = String (digit_char d) r.
Proof.
  induction fuel as [|f IH]; intros n acc Hn;
    assert (Hm : 0 ≤ n mod 10 < 10) by (apply Z.mod_pos_bound; lia).
  - cbn [str_digits]. eauto.
  - cbn [str_digits]. destruct (n <? 10); first eauto.
    apply IH. apply Z.div_pos; lia.
Qed.

Lemma rstrip_plain (s : string) :
  all_chars (λ c, negb (is_space c)) s = true → rstrip s = s.
Proof.
  induction s as [|c r IH]; simpl; first done.
  intros H. apply andb_true_iff in H as [Hc Hr].
  rewrite (IH Hr). apply negb_true_iff in Hc. rewrite Hc. by destruct r.
Qed.

Lemma strip_plain (s : string) :
  all_chars (λ c, negb (is_space c)) s = true → strip s = s.
Proof.
  intros H. unfold strip.
  assert (lstrip s = s) as ->; last by apply rstrip_plain.
  destruct s as [|c r]; first done. simpl in *.
  apply andb_true_iff in H as [Hc _]. apply negb_true_iff in Hc. by rewrite Hc.
Qed.

Lemma str_digits_ascii (fuel : nat) : ∀ (n : Z) (acc : string),
  0 ≤ n → is_ascii acc = true → is_ascii (str_digits fuel n acc) = true.
Proof.
  assert (Hd : ∀ d, 0 ≤ d < 10 → (byte (digit_char d) <? 128) = true).
  { intros d Hd. each_digit d Hd. }
  unfold is_ascii.
  induction fuel as [|f IH]; intros n acc Hn Hacc;
    assert (Hm : 0 ≤ n mod 10 < 10) by (apply Z.mod_pos_bound; lia).
  - cbn [str_digits all_chars]. by rewrite (Hd _ Hm), Hacc.
  - cbn [str_digits]. destruct (n <? 10).
    + cbn [all_chars]. by rewrite (Hd _ Hm), Hacc.
    + apply IH; first (apply Z.div_pos; lia).
      cbn [all_chars]. by rewrite (Hd _ Hm), Hacc.
Qed.

Lemma is_ascii_py_str (z : Z) : is_ascii (py_str z) = true.
Proof.
  unfold py_str.
  pose proof (str_digits_ascii (Z.to_nat (Z.log2 (Z.abs z))) (Z.abs z) EmptyString
                ltac:(lia) eq_refl) as Hb.
  destruct (z <? 0); last done.
  unfold is_ascii in *. cbn [all_chars]. by rewrite Hb.
Qed.

Lemma int_of_ascii_py_str (z : Z) : int_of_ascii (py_str z) = Some z.
Proof.
  unfold int_of_ascii, py_str.
  set (n := Z.abs z). assert (Hn : 0 ≤ n) by (subst n; lia).
  pose proof (int_digits_str_digits_end _ n (fuel_enough n Hn)) as Hparse.
  pose proof (str_digits_plain (Z.to_nat (Z.log2 n)) n EmptyString Hn eq_refl) as Hpl.
  destruct (Z.ltb_spec z 0) as [Hneg|Hpos].
  - rewrite strip_plain by (cbn [all_chars]; by rewrite Hpl).
    rewrite Ascii.eqb_refl, Hparse. simpl. f_equal; subst n; lia.
  - rewrite strip_plain by done.
    destruct (str_digits_head (Z.to_nat (Z.log2 n)) n EmptyString Hn)
      as (d & r & Hd & Heq).
    rewrite Heq in Hparse |- *.
    pose proof (digit_char_plain d Hd) as (_ & _ & Hm & Hp).
    rewrite Hm, Hp, Hparse. f_equal; subst n; lia.
Qed.

(** [int(str(z)) == z] for every integer. *)
Lemma py_int_py_str (z : Z) : py_int (py_str z) = Some z.
Proof. unfold py_int. by rewrite is_ascii_py_str, int_of_ascii_py_str. Qed.

Lemma append_cons (c : ascii) (s t : string) :
  String c s +:+ t = String c (s +:+ t).
Proof. reflexivity. Qed.

Lemma append_assoc (s t u : string) : (s +:+ t) +:+ u = s +:+ (t +:+ u).
Proof.
  induction s as [|c s IH]; first done.
  by rewrite !append_cons, IH.
Qed.

Lemma occurs_split (c : ascii) (s : string) :
  occurs c s = true →
  ∃ h t, s = h +:+ String c t ∧ occurs c h = false.
Proof.
  induction s as [|d r IH]; cbn [occurs]; first done.
  destruct (Ascii.eqb_spec d c) as [->|Hne]; simpl.
  - intros _. by exists EmptyString, r.
  - intros (h & t & -> & Hh)%IH. exists (String d h), t. split; first done.
    cbn [occurs]. rewrite Hh. by destruct (Ascii.eqb_spec d c).
Qed.

Lemma occurs_append_r (c : ascii) (s t : string) :
  occurs c (s +:+ String c t) = true.
Proof.
  induction s as [|d r IH].
  - change (occurs c (String c t) = true). cbn [occurs]. by rewrite Ascii.eqb_refl.
  - change (occurs c (String d (r +:+ String c t)) = true). cbn [occurs].
    rewrite IH. apply orb_true_r.
Qed.

Lemma literal_char_not (c x : ascii) :
  literal_char x = false → literal_char c = true → Ascii.eqb c x = false.
Proof.
  intros Hx Hc. destruct (Ascii.eqb_spec c x) as [->|]; congruence.
Qed.

Lemma int_digits_no_char (x : ascii) (n : nat) : ∀ (s : string) (acc v : Z),
  literal_char x = false →
  (String.length s ≤ n)%nat →
  int_digits acc s = Some v → occurs x s = false.
Proof.
  intros s acc v Hx. revert s acc v.
  induction n as [|n IH]; intros s acc v Hlen; destruct s as [|c r]; try done.
  { simpl in Hlen. lia. }
  cbn [int_digits occurs]. simpl in Hlen.
  destruct (digit_val c) as [d|] eqn:Hc; last done.
  assert (Ascii.eqb c x = false) as ->.
  { apply literal_char_not; first done. unfold literal_char, is_digit. by rewrite Hc. }
  simpl. destruct r as [|u r']; first done.
  destruct (Ascii.eqb_spec u "_") as [->|Hu].
  - intros Hv. cbn [occurs].
    assert (Ascii.eqb "_" x = false) as -> by (by apply literal_char_not).
    simpl. apply (IH r' (acc * 10 + d) v); [simpl in Hlen; lia|done].
  - intros Hv. apply (IH (String u r') (acc * 10 + d) v); [lia|done].
Qed.

Lemma lstrip_occurs (c : ascii) (s : string) :
  is_space c = false → occurs c (lstrip s) = occurs c s.
Proof.
  intros Hc. induction s as [|d r IH]; first done.
  cbn [lstrip]. destruct (is_space d) eqn:Hd; last done.
  cbn [occurs]. rewrite IH.
  destruct (Ascii.eqb_spec d c) as [->|]; [congruence|done].
Qed.

Lemma rstrip_occurs (c : ascii) (s : string) :
  is_space c = false → occurs c (rstrip s) = occurs c s.
Proof.
  intros Hc. induction s as [|d r IH]; first done.
  cbn [rstrip occurs]. rewrite <- IH.
  destruct (rstrip r) as [|e r']; last done.
  destruct (is_space d) eqn:Hd; last done.
  cbn [occurs]. destruct (Ascii.eqb_spec d c) as [->|]; [congruence|done].
Qed.

(** ASCII text that parses as a literal holds literal characters only. *)
Lemma int_of_ascii_no_char (x : ascii) (t : string) (v : Z) :
  literal_char x = false →
  int_of_ascii t = Some v → occurs x t = false.
Proof.
  intros Hx. unfold int_of_ascii, strip. intros Hv.
  assert (Hsp : is_space x = false).
  { unfold literal_char in Hx. by destruct (is_digit x), (Ascii.eqb x "_"), (is_space x). }
  rewrite <- (lstrip_occurs x t Hsp), <- (rstrip_occurs x _ Hsp).
  destruct (rstrip (lstrip t)) as [|c r]; first done.
  destruct (Ascii.eqb_spec c "-") as [->|Hm].
  { destruct (int_digits 0 r) as [w|] eqn:Hw; last done.
    cbn [occurs]. assert (Ascii.eqb "-" x = false) as -> by (by apply literal_char_not).
    simpl. by eapply int_digits_no_char. }
  destruct (Ascii.eqb_spec c "+") as [->|Hp].
  { cbn [occurs]. assert (Ascii.eqb "+" x = false) as -> by (by apply literal_char_not).
    simpl. by eapply int_digits_no_char. }
  by eapply int_digits_no_char.
Qed.

Lemma emit_cases (cp : Z) (tail : string) :
  emit cp tail = "?" ∨ ∃ c, emit cp tail = String c tail.
Proof.
  unfold emit. destruct (unicode_space cp); first (right; by eexists).
  destruct (unicode_decimal cp) as [d|]; last by left.
  destruct ((0 <=? d) && (d <? 10)); [right; by eexists|by left].
Qed.

Lemma emit_keeps (x : ascii) (cp : Z) (tail : string) :
  occurs x tail = true ∨ occurs "?" tail = true →
  occurs x (emit cp tail) = true ∨ occurs "?" (emit cp tail) = true.
Proof.
  intros Ht. destruct (emit_cases cp tail) as [->|[c ->]]; first by right.
  cbn [occurs]. destruct Ht as [-> | ->]; [left|right]; apply orb_true_r.
Qed.

Lemma cont_not_colon (b : ascii) (lo hi : Z) :
  128 ≤ lo → between lo hi b = true → Ascii.eqb b colon = false.
Proof.
  intros Hlo Hb. destruct (Ascii.eqb_spec b colon) as [->|]; last done.
  unfold between in Hb. apply andb_true_iff in Hb as [Hb _].
  apply Z.leb_le in Hb. change (byte colon) with 58 in Hb. lia.
Qed.

(** A colon in the text is still there after the transformation, unless
    the transformation stopped at a question mark. *)
Lemma to_ascii_colon (n : nat) : ∀ (t : string),
  (String.length t ≤ n)%nat →
  occurs colon t = true →
  occurs colon (to_ascii t) = true ∨ occurs "?" (to_ascii t) = true.
Proof.
  induction n as [|n IH]; intros t Hlen; destruct t as [|a r]; try done.
  { simpl in Hlen. lia. }
  cbn [String.length] in Hlen. cbn [occurs to_ascii].
  destruct (Ascii.eqb_spec a colon) as [->|Hne].
  { intros _. left. change (byte colon <? 127) with true. cbv iota.
    cbn [occurs]. by rewrite Ascii.eqb_refl. }
  cbn [orb]. intros Hr.
  destruct (byte a <? 127) eqn:Ha.
  { cbn [occurs]. destruct (IH r ltac:(lia) Hr) as [-> | ->]; [left|right]; apply orb_true_r. }
  destruct (byte a <? 128) eqn:Ha'.
  { apply emit_keeps, IH; [lia|done]. }
  destruct r as [|b r1]; first by right.
  cbn [String.length] in Hlen. cbn [occurs] in Hr.
  destruct (between 194 223 a && cont b) eqn:H2.
  { apply andb_true_iff in H2 as [_ Hb].
    rewrite (cont_not_colon b 128 191) in Hr by (done || lia).
    apply emit_keeps, IH; [lia|done]. }
  destruct r1 as [|c r2]; first by right.
  cbn [String.length] in Hlen. cbn [occurs] in Hr.
  destruct (between 224 239 a && _ && cont c) eqn:H3.
  { apply andb_true_iff in H3 as [H3 Hc]. apply andb_true_iff in H3 as [_ Hb].
    assert (Ascii.eqb b colon = false) as Hbc.
    { destruct (byte a =? 224); [|destruct (byte a =? 237)];
        eapply cont_not_colon; try exact Hb; lia. }
    rewrite Hbc, (cont_not_colon c 128 191) in Hr by (done || lia).
    apply emit_keeps, IH; [lia|done]. }
  destruct r2 as [|d r3]; first by right.
  cbn [String.length] in Hlen. cbn [occurs] in Hr.
  destruct (between 240 244 a && _ && cont c && cont d) eqn:H4; last by right.
  apply andb_true_iff in H4 as [H4 Hd]. apply andb_true_iff in H4 as [H4 Hc].
  apply andb_true_iff in H4 as [_ Hb].
  assert (Ascii.eqb b colon = false) as Hbc.
  { destruct (byte a =? 240); [|destruct (byte a =? 244)];
      eapply cont_not_colon; try exact Hb; lia. }
  rewrite Hbc, (cont_not_colon c 128 191), (cont_not_colon d 128 191) in Hr
    by (done || lia).
  apply emit_keeps, IH; [lia|done].
Qed.

(** Text that [int] accepts holds no colon. *)
Lemma py_int_no_colon (t : string) (v : Z) :
  py_int t = Some v → occurs colon t = false.
Proof.
  unfold py_int. destruct (is_ascii t).
  - by apply int_of_ascii_no_char.
  - intros Hv. destruct (occurs colon t) eqn:Hocc; last done.
    destruct (to_ascii_colon _ t (le_n _) Hocc) as [Hc|Hq].
    + by rewrite (int_of_ascii_no_char colon _ v eq_refl Hv) in Hc.
    + by rewrite (int_of_ascii_no_char "?" _ v eq_refl Hv) in Hq.
Qed.

Lemma parse_serialize (h : string) (p : Z) :
  is_ipv4 h = true → parse_addr_port_str (h +:+ ":" +:+ py_str p) = Some (h, p).
Proof.
  intros Hh. unfold parse_addr_port_str.
  change (":" +:+ py_str p) with (String colon (py_str p)).
  rewrite (split1_append colon h _ (is_ipv4_no_colon h Hh)).
  by rewrite Hh, py_int_py_str.
Qed.

(** A parse of [f'{h}:{p}'] that succeeds gives back [(h, p)]. *)
Lemma parse_serialize_inv (h : string) (p : Z) (ap : string * Z) :
  parse_addr_port_str (h +:+ ":" +:+ py_str p) = Some ap →
  ap = (h, p) ∧ is_ipv4 h = true.
Proof.
  unfold parse_addr_port_str.
  change (":" +:+ py_str p) with (String colon (py_str p)).
  destruct (occurs colon h) eqn:Hocc.
  - apply occurs_split in Hocc as (h1 & t1 & -> & Hh1).
    rewrite append_assoc, append_cons.
    rewrite (split1_append colon h1 _ Hh1).
    destruct (is_ipv4 h1); last done.
    destruct (py_int _) as [v|] eqn:Hv; last done.
    apply py_int_no_colon in Hv. by rewrite occurs_append_r in Hv.
  - rewrite (split1_append colon h _ Hocc).
    destruct (is_ipv4 h); last done.
    rewrite py_int_py_str. by intros [= <-].
Qed.

Lemma substring_all (s : string) : String.substring 0 (String.length s) s = s.
Proof. induction s as [|c r IH]; simpl; [done|by rewrite IH]. Qed.

End TextFacts.

(** ** The local registry *)

Section RegistryFacts.

Implicit Types (self : _RegistryImpl) (p : Z) (l : list Service).

Lemma find_port_split l p i x :
  list_find (port_is p) l = Some (i, x) →
  ∃ pre post, l = pre ++ x :: post ∧ length pre = i ∧ service_port x = p
    ∧ Forall (λ s, service_port s ≠ p) pre.
Proof.
  intros (Hl & Hp & Hlt)%list_find_Some.
  exists (take i l), (drop (S i) l). split_and!.
  - by rewrite take_drop_middle.
  - apply length_take_le. apply lookup_lt_Some in Hl. lia.
  - done.
  - apply Forall_lookup. intros j y (Hy & Hj)%lookup_take_Some. by apply (Hlt j).
Qed.

Lemma insert_middle {A} (pre post : list A) (x y : A) :
  <[length pre := y]> (pre ++ x :: post) = pre ++ y :: post.
Proof. induction pre as [|a pre IH]; simpl; [done|by rewrite IH]. Qed.

Lemma new_service_inv addr p nm lbls e :
  new_service addr p nm lbls = Ok e →
  e = mkService nm lbls (addr, p) ∧ is_ipv4 addr = true.
Proof.
  unfold new_service.
  destruct (parse_addr_port_str _) as [ap|] eqn:Hap; last done.
  apply parse_serialize_inv in Hap as [-> ?]. by intros [= <-].
Qed.

Lemma new_service_ok addr p nm lbls :
  is_ipv4 addr = true →
  new_service addr p nm lbls = Ok (mkService nm lbls (addr, p)).
Proof. intros H. unfold new_service. by rewrite (parse_serialize addr p H). Qed.

Lemma advertise_service_shape self p nm lbls :
  advertised self p (mkService nm lbls (reg_addr self, p))
             (advertise_service self p nm lbls).
Proof.
  unfold advertise_service.
  destruct (negb _); first constructor.
  destruct (new_service _ _ _ _) as [e|ex] eqn:He; last constructor.
  apply new_service_inv in He as [-> _].
  destruct (list_find _ _) as [[i x]|] eqn:Hf.
  - apply find_port_split in Hf as (pre & post & Hl & <- & Hp & Hpre).
    by eapply adv_replaced.
  - apply list_find_None in Hf. by apply adv_appended.
Qed.

Lemma advertise_service_ok self p nm lbls :
  is_ipv4 (reg_addr self) = true → 0 < p < 65536 →
  (advertise_service self p nm lbls).1 = Ok ().
Proof.
  intros Hip Hp. unfold advertise_service.
  assert (negb ((0 <? p) && (p <? 2 ^ 16)) = false) as ->.
  { apply negb_false_iff, andb_true_iff. split; apply Z.ltb_lt; lia. }
  rewrite (new_service_ok _ p nm lbls Hip).
  by destruct (list_find _ _) as [[i x]|].
Qed.

Lemma unlist_service_shape self p : unlisted self p (unlist_service self p).
Proof.
  unfold unlist_service.
  destruct (list_find _ _) as [[i x]|] eqn:Hf.
  - apply find_port_split in Hf as (pre & post & Hl & <- & Hp & Hpre).
    by eapply unl_removed.
  - apply list_find_None in Hf. by apply unl_missing.
Qed.

Lemma filter_port_none l p :
  Forall (λ s, service_port s ≠ p) l → filter (port_is p) l = [].
Proof.
  induction 1 as [|x l Hx _ IH]; first done.
  by rewrite filter_cons_False.
Qed.

Lemma ports_not_elem l p :
  p ∉ service_port <$> l ↔ Forall (λ s, service_port s ≠ p) l.
Proof.
  rewrite Forall_forall, list_elem_of_fmap. split.
  - intros H x Hx Hp. apply H. by exists x.
  - intros H (x & -> & Hx). by apply (H x).
Qed.

(** One call keeps the ports of the registry pairwise distinct. *)
Lemma registry_call_NoDup self c :
  NoDup (ports self) → NoDup (ports (registry_call self c)).
Proof.
  unfold ports. intros Hnd. destruct c as [p nm lbls|p]; cbn [registry_call].
  - destruct (advertise_service_shape self p nm lbls)
      as [ex|pre old post Hl Hp Hpre|Hall]; cbn [snd _services]; first done.
    + rewrite Hl, insert_middle. rewrite Hl in Hnd.
      by rewrite !fmap_app, !fmap_cons, Hp in *.
    + rewrite fmap_app. apply NoDup_app. split_and!; first done.
      * intros q Hq [->|[]%elem_of_nil]%elem_of_cons.
        by apply ports_not_elem in Hall.
      * apply NoDup_singleton.
  - destruct (unlist_service_shape self p)
      as [Hall|pre old post Hl Hp Hpre]; cbn [snd _services]; first done.
    rewrite Hl, delete_middle. rewrite Hl in Hnd.
    rewrite fmap_app, fmap_cons in Hnd. rewrite fmap_app.
    apply NoDup_app in Hnd as (Hnd1 & Hdisj & Hnd2).
    apply NoDup_cons in Hnd2 as [_ Hnd2].
    apply NoDup_app. split_and!; [done| |done].
    intros q Hq Hq'. apply (Hdisj q Hq). by right.
Qed.

Lemma registry_run_NoDup cs : ∀ self,
  NoDup (ports self) → NoDup (ports (registry_run self cs)).
Proof.
  unfold registry_run.
  induction cs as [|c cs IH]; intros self Hnd; first done.
  cbn [foldl]. by apply IH, registry_call_NoDup.
Qed.

(** A call on another port leaves the entries of port [p] as they are. *)
Lemma registry_call_other_port self c p :
  call_port c ≠ p →
  filter (port_is p) (services (registry_call self c))
  = filter (port_is p) (services self).
Proof.
  unfold services. intros Hc. destruct c as [q nm lbls|q]; cbn [registry_call call_port] in *.
  - destruct (advertise_service_shape self q nm lbls)
      as [ex|pre old post Hl Hq Hpre|Hall]; cbn [snd _services]; first done.
    + rewrite Hl, insert_middle, !filter_app.
      rewrite (filter_cons_False _ old) by (unfold port_is; congruence).
      by rewrite filter_cons_False by done.
    + rewrite filter_app, filter_cons_False by done.
      by rewrite filter_nil, app_nil_r.
  - destruct (unlist_service_shape self q)
      as [Hall|pre old post Hl Hq Hpre]; cbn [snd _services]; first done.
    rewrite Hl, delete_middle, !filter_app.
    by rewrite filter_cons_False by (unfold port_is; congruence).
Qed.

Lemma registry_run_other_port cs p : ∀ self,
  Forall (λ c, call_port c ≠ p) cs →
  filter (port_is p) (services (registry_run self cs))
  = filter (port_is p) (services self).
Proof.
  unfold registry_run.
  induction cs as [|c cs IH]; intros self Hcs; first done.
  apply Forall_cons in Hcs as [Hc Hcs]. cbn [foldl].
  by rewrite IH, registry_call_other_port.
Qed.

End RegistryFacts.

Section RegistryClaims.

Implicit Types (self : _RegistryImpl) (p : Z).

Lemma NoDup_ports_after pre old post p :
  NoDup (service_port <$> (pre ++ old :: post)) → service_port old = p →
  Forall (λ s, service_port s ≠ p) post.
Proof.
  rewrite fmap_app, fmap_cons. intros (_ & _ & Hnd)%NoDup_app <-.
  apply NoDup_cons in Hnd as [Hnotin _]. by apply ports_not_elem.
Qed.

(** C2. For a port [0 < p < 65536], on a registry of the node's own IPv4
    address whose entries have pairwise distinct ports,
    [advertise_service(p, n, l)] raises nothing; it replaces the entry of
    port [p] at its index when there is one and appends the new entry
    otherwise; and a snapshot taken after any further calls on other ports
    (so with no intervening [unlist_service(p)]) holds exactly one entry of
    port [p], the one with name [n] and labels [l]. *)
Theorem advertise_then_snapshot self p (nm : string) (lbls : gmap string string)
    (cs : list RegistryCall) :
  is_ipv4 (reg_addr self) = true →
  NoDup (ports self) →
  0 < p < 65536 →
  Forall (λ c, call_port c ≠ p) cs →
  ∃ self1,
    advertise_service self p nm lbls = (Ok (), self1)
    ∧ reg_addr self1 = reg_addr self
    ∧ ((∃ i old, _services self !! i = Some old ∧ service_port old = p
          ∧ _services self1 = <[i := mkService nm lbls (reg_addr self, p)]> (_services self))
       ∨ ((p ∉ ports self)
          ∧ _services self1 = _services self ++ [mkService nm lbls (reg_addr self, p)]))
    ∧ filter (port_is p) (services (registry_run self1 cs))
      = [mkService nm lbls (reg_addr self, p)].
Proof.
  intros Hip Hnd Hp Hcs.
  pose proof (advertise_service_ok self p nm lbls Hip Hp) as Hok. revert Hok.
  destruct (advertise_service_shape self p nm lbls)
    as [ex|pre old post Hl Hold Hpre|Hall]; cbn [fst]; first done; intros _.
  - eexists. split_and!; [done|done| |].
    + left. exists (length pre), old. split_and!; [|done..].
      rewrite Hl. by apply list_lookup_middle.
    + rewrite registry_run_other_port by done. unfold services. cbn [_services].
      unfold ports in Hnd. rewrite Hl in Hnd |- *.
      rewrite insert_middle, filter_app, filter_cons_True by done.
      rewrite (filter_port_none pre p Hpre).
      by rewrite (filter_port_none post p (NoDup_ports_after _ _ _ _ Hnd Hold)).
  - eexists. split_and!; [done|done| |].
    + right. split; last done. by apply ports_not_elem.
    + rewrite registry_run_other_port by done. unfold services. cbn [_services].
      rewrite filter_app, (filter_port_none _ p Hall).
      by rewrite filter_cons_True by done.
Qed.

(** C6. On a registry with no entry of port [p], [unlist_service(p)]
    raises [KeyError] and leaves the registry as it is. On a registry with
    an entry of port [p] it returns normally and removes the first such
    entry, keeping the others in order; when ports are pairwise distinct
    that entry was the only one, so none of port [p] remains. *)
Theorem unlist_service_spec self p :
  (p ∉ ports self → unlist_service self p = (Raise KeyError, self))
  ∧ (p ∈ ports self →
     ∃ pre old post,
       _services self = pre ++ old :: post
       ∧ service_port old = p
       ∧ (p ∉ service_port <$> pre)
       ∧ unlist_service self p = (Ok (), mkRegistry (reg_addr self) (pre ++ post))
       ∧ (NoDup (ports self) → p ∉ service_port <$> (pre ++ post))).
Proof.
  split; intros Hin;
    destruct (unlist_service_shape self p) as [Hall|pre old post Hl Hold Hpre].
  - done.
  - exfalso. apply Hin. unfold ports. rewrite Hl, fmap_app, fmap_cons, Hold.
    apply elem_of_app. right. by left.
  - by apply ports_not_elem in Hall.
  - exists pre, old, post. split_and!; [done|done|by apply ports_not_elem| |].
    + by rewrite Hl, delete_middle.
    + unfold ports. rewrite Hl. intros Hnd.
      apply ports_not_elem, Forall_app. split; first done.
      by eapply NoDup_ports_after.
Qed.

(** C8. In every registry reached from an empty one by a sequence of
    [advertise_service] and [unlist_service] calls, no two entries have the
    same port. From such a registry, [advertise_service] with a port in
    [1, 65535] on an IPv4 address returns, and when it returns it has
    either overwritten the entry of its port at that entry's index, leaving
    every other index as it was, or, the port being new, put its entry
    after all the others; when it raises, the registry is unchanged.
    [unlist_service] of a port that is present returns and deletes the one
    index of that port, the entries before it staying where they are and the
    ones after it moving up by one in their order; of a port that is absent
    it raises [KeyError] and changes nothing. *)
Theorem registry_invariant (addr : string) (cs : list RegistryCall) :
  NoDup (ports (registry_run (new_registry addr) cs))
  ∧ (∀ p nm lbls,
       let self := registry_run (new_registry addr) cs in
       let e := mkService nm lbls (reg_addr self, p) in
       let out := (advertise_service self p nm lbls).1 in
       let self' := (advertise_service self p nm lbls).2 in
       (0 < p < 65536 → is_ipv4 (reg_addr self) = true → out = Ok ())
       ∧ (out ≠ Ok () → self' = self)
       ∧ (out = Ok () →
            (∃ i old, _services self !! i = Some old ∧ service_port old = p
               ∧ _services self' = <[i := e]> (_services self)
               ∧ _services self' !! i = Some e
               ∧ ∀ j, j ≠ i → _services self' !! j = _services self !! j)
            ∨ ((p ∉ ports self) ∧ _services self' = _services self ++ [e])))
  ∧ (∀ p,
       let self := registry_run (new_registry addr) cs in
       let out := (unlist_service self p).1 in
       let self' := (unlist_service self p).2 in
       ((p ∉ ports self) → out = Raise KeyError ∧ self' = self)
       ∧ (p ∈ ports self →
            out = Ok ()
            ∧ ∃ i old, _services self !! i = Some old ∧ service_port old = p
                ∧ _services self' = delete i (_services self)
                ∧ (∀ j, (j < i)%nat → _services self' !! j = _services self !! j)
                ∧ (∀ j, (i ≤ j)%nat → _services self' !! j = _services self !! S j))).
Proof.
  split_and!.
  - apply registry_run_NoDup. unfold ports. cbn. constructor.
  - intros p nm lbls self e out self'. subst out self' e. split_and!.
    + intros Hp Hip. by apply advertise_service_ok.
    + by destruct (advertise_service_shape self p nm lbls).
    + destruct (advertise_service_shape self p nm lbls)
        as [ex|pre old post Hl Hold Hpre|Hall]; cbn [fst snd _services];
        first done; intros _.
      * left. exists (length pre), old.
        assert (_services self !! length pre = Some old) as Hlk
          by (rewrite Hl; by apply list_lookup_middle).
        split_and!; [done..| |].
        -- apply list_lookup_insert_eq. by eapply lookup_lt_Some.
        -- intros j Hj. by apply list_lookup_insert_ne.
      * right. split; last done. by apply ports_not_elem.
  - intros p self out self'. subst out self'.
    destruct (unlist_service_shape self p)
      as [Hall|pre old post Hl Hold Hpre]; cbn [fst snd _services].
    + split; first done. intros Hin. by apply ports_not_elem in Hall.
    + split.
      * intros Hnotin. exfalso. apply Hnotin. unfold ports.
        rewrite Hl, fmap_app, fmap_cons, Hold. apply elem_of_app. right. by left.
      * intros _. split; first done. exists (length pre), old. split_and!; [|done..| |].
        -- rewrite Hl. by apply list_lookup_middle.
        -- intros j Hj. by apply list_lookup_delete_lt.
        -- intros j Hj. by apply list_lookup_delete_ge.
Qed.

End RegistryClaims.

(** ** The wire form of a Service *)

Section WireClaims.

Variable validate_tuple_str_int : pyval → option (string * Z).

Lemma validate_labels_dump (lbls : gmap string string) :
  validate_labels (PDict (PStr <$> lbls)) = Some lbls.
Proof.
  unfold validate_labels. rewrite bool_decide_eq_true_2.
  - f_equal. apply map_eq. intros k.
    rewrite lookup_omap, lookup_fmap. by destruct (lbls !! k).
  - apply map_Forall_fmap. intros k v _. by exists v.
Qed.

(** C4. A Service whose address is a valid IPv4 string survives the wire:
    validating the dict that [model_dump(by_alias=True)] produces gives the
    same Service back, whatever its port, name and labels; and that dict
    holds the address under the key [addrPort] as the one string
    [ip:port]. *)
Theorem wire_round_trip (s : Service) :
  is_ipv4 (addr_port s).1 = true →
  validate_service validate_tuple_str_int (PDict (model_dump s)) = Some s
  ∧ model_dump s !! "addrPort"
    = Some (PStr ((addr_port s).1 +:+ ":" +:+ py_str (addr_port s).2))
  ∧ model_dump s !! "addr_port" = None.
Proof.
  intros Hip. destruct s as [nm lbls [h p]]. cbn [addr_port fst snd] in *.
  assert (Hap : model_dump (mkService nm lbls (h, p)) !! "addrPort"
                = Some (PStr (h +:+ ":" +:+ py_str p))) by done.
  split_and!; [|done..].
  unfold validate_service. rewrite Hap.
  assert (model_dump (mkService nm lbls (h, p)) !! "name" = Some (PStr nm)) as -> by done.
  assert (model_dump (mkService nm lbls (h, p)) !! "labels"
          = Some (PDict (PStr <$> lbls))) as -> by done.
  cbn [mbind option_bind as_str parse_addr_port].
  rewrite validate_labels_dump. cbn [mbind option_bind].
  by rewrite (parse_serialize h p Hip).
Qed.

(** C10. Decoding does not check the port range: the wire strings
    [1.2.3.4:70000] and [1.2.3.4:0] both validate, to Services that carry
    the ports 70000 and 0, neither of which lies in [1, 65535]. *)
Theorem decode_port_out_of_range :
  validate_service validate_tuple_str_int
    (PDict {[ "name" := PStr "x"; "labels" := PDict ∅;
              "addrPort" := PStr "1.2.3.4:70000" ]})
  = Some (mkService "x" ∅ ("1.2.3.4", 70000))
  ∧ validate_service validate_tuple_str_int
      (PDict {[ "name" := PStr "x"; "labels" := PDict ∅;
                "addrPort" := PStr "1.2.3.4:0" ]})
    = Some (mkService "x" ∅ ("1.2.3.4", 0))
  ∧ ¬ (1 ≤ 70000 ≤ 65535) ∧ ¬ (1 ≤ 0 ≤ 65535).
Proof.
  split_and!; [| |lia..].
  - vm_compute. reflexivity.
  - vm_compute. reflexivity.
Qed.

End WireClaims.

(** ** The discovery client *)

Section ClientClaims.

Variable json_loads : string → result pyval.
Variable validate_tuple_str_int : pyval → option (string * Z).
Variable http_get : string → Z → string → result HTTPResponse.
Variable _read_ipn_status : result IpnStatus.

#[local] Abbreviation list_all :=
  (list_services json_loads validate_tuple_str_int http_get _read_ipn_status).
#[local] Abbreviation find :=
  (find_service json_loads validate_tuple_str_int http_get _read_ipn_status).
#[local] Abbreviation fetch :=
  (_get_remote_services json_loads validate_tuple_str_int http_get).

Lemma labels_match_superset (want have : gmap string string) :
  _labels_match want have = true ↔ label_superset want have.
Proof.
  unfold _labels_match, label_superset. rewrite forallb_forall. split.
  - intros H k v Hkv.
    specialize (H (k, v)). cbn in H.
    apply negb_true_iff, bool_decide_eq_false in H.
    + by destruct (decide (have !! k = Some v)).
    + apply list_elem_of_In. by apply elem_of_map_to_list.
  - intros H [k v] Hin. cbn.
    apply list_elem_of_In, elem_of_map_to_list in Hin.
    apply negb_true_iff, bool_decide_eq_false. intros Hne. by apply Hne, H.
Qed.

Lemma service_matches_iff (nm : string) (lbls : gmap string string) (s : Service) :
  String.eqb nm (name s) && _labels_match lbls (labels s) = true
  ↔ service_matches nm lbls s.
Proof.
  unfold service_matches.
  rewrite andb_true_iff, String.eqb_eq, labels_match_superset.
  split; intros [H1 H2]; by split.
Qed.

Lemma find_service_loop_Some svcs nm lbls ap :
  find_service_loop svcs nm lbls = Some ap →
  ∃ pre s post, svcs = pre ++ s :: post ∧ service_matches nm lbls s
    ∧ ap = addr_port s ∧ Forall (λ t, ¬ service_matches nm lbls t) pre.
Proof.
  induction svcs as [|s svcs IH]; first done. cbn [find_service_loop].
  destruct (String.eqb nm (name s) && _labels_match lbls (labels s)) eqn:Hm.
  - intros [= <-]. exists [], s, svcs. split_and!; [done| |done|constructor].
    by apply service_matches_iff.
  - intros (pre & t & post & -> & Ht & -> & Hpre)%IH.
    exists (s :: pre), t, post. split_and!; [done..|].
    constructor; last done. rewrite <- service_matches_iff. by rewrite Hm.
Qed.

Lemma find_service_loop_None svcs nm lbls :
  find_service_loop svcs nm lbls = None ↔
  Forall (λ t, ¬ service_matches nm lbls t) svcs.
Proof.
  induction svcs as [|s svcs IH]; first done. cbn [find_service_loop].
  rewrite Forall_cons, <- IH, <- service_matches_iff.
  destruct (String.eqb nm (name s) && _labels_match lbls (labels s)).
  - split; [done|]. by intros [Hs _].
  - split; [|by intros [_ Hs]]. intros Hs. split; [done|exact Hs].
Qed.

(** C3. When [list_services()] returns [svcs], [find_service(name, labels)]
    returns a pair exactly when some Service of [svcs] has that very name
    and, for every requested label, the same value under the same key
    (labels the request does not name are ignored); and the pair returned is
    the [addr_port] of the first such Service in the order of [svcs]. *)
Theorem find_service_spec (nm : string) (lbls : gmap string string)
    (svcs : list Service) :
  list_all = Ok svcs →
  ∃ r, find nm lbls = Ok r
    ∧ (is_Some r ↔ ∃ s, s ∈ svcs ∧ name s = nm
                      ∧ ∀ k v, lbls !! k = Some v → labels s !! k = Some v)
    ∧ (∀ ap, r = Some ap →
         ∃ pre s post, svcs = pre ++ s :: post
           ∧ service_matches nm lbls s ∧ ap = addr_port s
           ∧ Forall (λ t, ¬ service_matches nm lbls t) pre).
Proof.
  intros Hlist. unfold find_service. rewrite Hlist. cbn [rbind].
  eexists. split_and!; [done| |].
  - split.
    + intros [ap (pre & s & post & -> & [Hn Hl] & _)%find_service_loop_Some].
      exists s. split_and!; [|done..]. apply elem_of_app. right. by left.
    + intros (s & Hin & Hn & Hl).
      destruct (find_service_loop svcs nm lbls) eqn:Hf; first done.
      rewrite find_service_loop_None, Forall_forall in Hf.
      by destruct (Hf s Hin).
  - intros ap. apply find_service_loop_Some.
Qed.

Lemma list_services_loop_ok (addrs : list string) : ∀ (acc : list Service),
  Forall (λ a, is_Some (contribution swallowed (fetch a DISCOVERY_PORT))) addrs →
  list_services_loop json_loads validate_tuple_str_int http_get addrs acc
  = Ok (acc ++ concat ((λ a, default [] (contribution swallowed (fetch a DISCOVERY_PORT)))
                         <$> addrs)).
Proof.
  induction addrs as [|a addrs IH]; intros acc Hall.
  - cbn. by rewrite app_nil_r.
  - apply Forall_cons in Hall as [[part Ha] Hall].
    cbn [list_services_loop fmap list_fmap concat]. rewrite Ha. cbn [default].
    destruct (fetch a DISCOVERY_PORT) as [part'|e]; cbn [contribution] in Ha.
    + injection Ha as ->. by rewrite IH, app_assoc.
    + case_bool_decide as He; last done. injection Ha as <-.
      unfold swallowed in He. apply elem_of_cons in He as [->|He].
      { by rewrite IH. }
      apply elem_of_cons in He as [->|He]; first by rewrite IH.
      by apply elem_of_nil in He.
Qed.

Lemma list_services_loop_fail (pre : list string) (a : string) (post : list string)
    (e : exn) : ∀ (acc : list Service),
  Forall (λ a, is_Some (contribution swallowed (fetch a DISCOVERY_PORT))) pre →
  fetch a DISCOVERY_PORT = Raise e →
  e ∉ swallowed →
  list_services_loop json_loads validate_tuple_str_int http_get (pre ++ a :: post) acc
  = Raise e.
Proof.
  intros acc Hpre Ha He. revert acc.
  induction pre as [|b pre IH]; intros acc.
  - cbn [app list_services_loop]. rewrite Ha.
    destruct e; try done; exfalso; apply He; unfold swallowed.
    + by left.
    + right. by left.
  - apply Forall_cons in Hpre as [[part Hb] Hpre].
    cbn [app list_services_loop].
    destruct (fetch b DISCOVERY_PORT) as [part'|e']; first by apply IH.
    cbn [contribution] in Hb. case_bool_decide as He'; last done.
    unfold swallowed in He'. apply elem_of_cons in He' as [->|He'].
    { by apply IH. }
    apply elem_of_cons in He' as [->|He']; first by apply IH.
    by apply elem_of_nil in He'.
Qed.

(** What [_get_remote_services] makes of a response that arrived. *)
Lemma fetch_response (addr : string) (port : Z) (resp : HTTPResponse) :
  http_get addr port "/services" = Ok resp →
  fetch addr port =
    if negb (status resp =? 200) then
      Raise (MinidiscError (fetch_error_message (status resp) (reason resp)))
    else match decode_utf8 (payload resp) with
         | None => Raise UnicodeDecodeError
         | Some body =>
             data ←r json_loads body;
             validate_service_list validate_tuple_str_int data
         end.
Proof. intros Hr. unfold _get_remote_services. by rewrite Hr. Qed.

(** C5, as the code has it. [list_services] asks every address of the mesh
    status, in order, on port 28004. A peer whose fetch raises
    [ConnectionRefusedError] or [TimeoutError] adds nothing and the loop goes
    on; when every peer answers or is skipped in that way, the result is the
    concatenation of the answers. The first peer that answers with a status
    other than 200 makes [list_services] raise the module's [Error] whose
    message holds that status and reason; the first that answers 200 with a
    body that is not UTF-8, not JSON, or not a list of Services makes it
    raise [UnicodeDecodeError], the exception of [json.loads]
    ([JSONDecodeError] for text that is not JSON) or [ValidationError]. In
    no case is the peer's address part of the exception. *)
Theorem list_services_errors (addrs : list string) :
  _list_tailnet_addresses _read_ipn_status = Ok addrs →
  (Forall (λ a, is_Some (contribution swallowed (fetch a DISCOVERY_PORT))) addrs →
     list_all
     = Ok (concat ((λ a, default [] (contribution swallowed (fetch a DISCOVERY_PORT)))
                     <$> addrs)))
  ∧ (∀ pre a post resp,
       addrs = pre ++ a :: post →
       Forall (λ a, is_Some (contribution swallowed (fetch a DISCOVERY_PORT))) pre →
       http_get a DISCOVERY_PORT "/services" = Ok resp →
       (status resp ≠ 200 →
          list_all
          = Raise (MinidiscError (fetch_error_message (status resp) (reason resp))))
       ∧ (status resp = 200 → decode_utf8 (payload resp) = None →
            list_all = Raise UnicodeDecodeError)
       ∧ (∀ body e, status resp = 200 → decode_utf8 (payload resp) = Some body →
            json_loads body = Raise e → e ∉ swallowed → list_all = Raise e)
       ∧ (∀ body data, status resp = 200 → decode_utf8 (payload resp) = Some body →
            json_loads body = Ok data →
            validate_service_list validate_tuple_str_int data = Raise ValidationError →
            list_all = Raise ValidationError)).
Proof.
  intros Haddrs. unfold list_services. rewrite Haddrs. cbn [rbind].
  split.
  - intros Hall. by rewrite list_services_loop_ok.
  - intros pre a post resp -> Hpre Hresp.
    pose proof (fetch_response a DISCOVERY_PORT resp Hresp) as Hf.
    assert (Hnot : ∀ e, e ∉ swallowed → fetch a DISCOVERY_PORT = Raise e →
              list_services_loop json_loads validate_tuple_str_int http_get
                (pre ++ a :: post) [] = Raise e).
    { intros e He Hfe. by apply list_services_loop_fail. }
    assert (Hsw : ∀ e, e ≠ ConnectionRefusedError → e ≠ TimeoutError → e ∉ swallowed).
    { intros e H1 H2. unfold swallowed.
      intros [->|[->|[]%elem_of_nil]%elem_of_cons]%elem_of_cons; done. }
    split_and!.
    + intros Hst. apply Hnot; first by apply Hsw.
      rewrite Hf. by destruct (Z.eqb_spec (status resp) 200).
    + intros Hst Hdec. apply Hnot; first by apply Hsw.
      rewrite Hf, Hst, Hdec. done.
    + intros body e Hst Hdec Hjs He. apply Hnot; first done.
      rewrite Hf, Hst, Hdec, Hjs. done.
    + intros body data Hst Hdec Hjs Hval. apply Hnot; first by apply Hsw.
      rewrite Hf, Hst, Hdec, Hjs. cbn [rbind]. by rewrite Hval.
Qed.

End ClientClaims.

(** ** The node *)

Section NodeFacts.

Variable json_loads : string → result pyval.
Variable json_dumps : pyval → string.
Variable validate_tuple_str_int : pyval → option (string * Z).
Variable http_get : string → Z → string → result HTTPResponse.

#[local] Abbreviation fetch :=
  (λ d : string * Z,
     _get_remote_services json_loads validate_tuple_str_int http_get d.1 d.2).
#[local] Abbreviation loop :=
  (services_loop json_loads validate_tuple_str_int http_get).
#[local] Abbreviation handle_get :=
  (_handle_http_get json_loads json_dumps validate_tuple_str_int http_get).
#[local] Abbreviation handle_post := (_handle_http_post json_loads).

Implicit Types (self : _MinidiscNode) (d : string * Z) (ds : list (string * Z)).

Lemma set_delegates_same self : set_delegates self (_delegates self) = self.
Proof. by destruct self. Qed.

Lemma set_delegates_twice self ds ds' :
  set_delegates (set_delegates self ds) ds' = set_delegates self ds'.
Proof. done. Qed.

Lemma list_remove_first_middle `{EqDecision A} (x : A) (l1 l2 : list A) :
  x ∉ l1 → list_remove_first x (l1 ++ x :: l2) = Some (l1 ++ l2).
Proof.
  induction l1 as [|y l1 IH]; intros Hx; cbn [app list_remove_first].
  - by rewrite decide_True.
  - apply not_elem_of_cons in Hx as [Hne Hx].
    rewrite decide_False by done. by rewrite IH.
Qed.

Lemma list_remove_first_subseteq `{EqDecision A} (x : A) (l l' : list A) :
  list_remove_first x l = Some l' → l' ⊆ l.
Proof.
  revert l'. induction l as [|y l IH]; intros l'; first done.
  cbn [list_remove_first]. case_decide.
  - intros [= <-]. intros z Hz. by right.
  - destruct (list_remove_first x l) as [k|]; last done.
    intros [= <-]. intros z [->|Hz]%elem_of_cons; first by left.
    right. by apply (IH k).
Qed.

Lemma contribution_evicting (r : result (list Service)) :
  is_Some (contribution evicting r) →
  (∃ part, r = Ok part ∧ is_refused r = false)
  ∨ (r = Raise ConnectionRefusedError ∧ is_refused r = true).
Proof.
  destruct r as [part|e]; cbn [contribution].
  - intros _. left. by exists part.
  - case_bool_decide as He; last by intros [? ?].
    intros _. right. unfold evicting in He.
    apply elem_of_cons in He as [->|[]%elem_of_nil]. done.
Qed.

(** The loop over delegates that all answer or refuse: the Services of
    those that answer are added in order, and exactly the delegates that
    refuse leave [_delegates]. *)
Lemma services_loop_ok (pending : list (string * Z)) : ∀ self kept acc,
  _delegates self = kept ++ pending →
  Forall (λ d, is_refused (fetch d) = false) kept →
  Forall (λ d, is_Some (contribution evicting (fetch d))) pending →
  loop self pending acc
  = (Ok (acc ++ concat ((λ d, default [] (contribution evicting (fetch d))) <$> pending)),
     set_delegates self (kept ++ filter (λ d, is_refused (fetch d) = false) pending)).
Proof.
  induction pending as [|[addr port] rest IH]; intros self kept acc Hds Hkept Hall.
  - cbn. rewrite !app_nil_r in *. by rewrite <- Hds, set_delegates_same.
  - apply Forall_cons in Hall as [Hd Hall].
    cbn [services_loop fmap list_fmap concat].
    destruct (contribution_evicting _ Hd) as [(part & Hf & Hr)|[Hf Hr]];
      cbn [fst snd] in Hf, Hr |- *.
    + rewrite Hf. cbn [contribution default].
      rewrite (IH self (kept ++ [(addr, port)]) (acc ++ part)); [| | |done].
      * rewrite filter_cons_True by done. by rewrite <- !app_assoc.
      * by rewrite <- app_assoc.
      * apply Forall_app. split; first done. by constructor.
    + rewrite Hf. cbn [contribution default].
      rewrite bool_decide_eq_true_2 by (by left). cbn [default app].
      rewrite Hds, list_remove_first_middle.
      * rewrite (IH (set_delegates self (kept ++ rest)) kept acc); [|done..].
        rewrite filter_cons_False by (cbn [fst snd]; by rewrite Hr).
        by rewrite set_delegates_twice.
      * intros Hin. rewrite Forall_forall in Hkept.
        specialize (Hkept _ Hin). cbn [fst snd] in Hkept. congruence.
Qed.

(** The loop up to the first delegate whose fetch raises anything but
    [ConnectionRefusedError]: the exception escapes, that delegate and those
    after it stay, and the evictions made before stand. *)
Lemma services_loop_fail (pre : list (string * Z)) (d : string * Z)
    (post : list (string * Z)) (e : exn) : ∀ self kept acc,
  _delegates self = kept ++ pre ++ d :: post →
  Forall (λ d, is_refused (fetch d) = false) kept →
  Forall (λ d, is_Some (contribution evicting (fetch d))) pre →
  fetch d = Raise e → e ≠ ConnectionRefusedError →
  loop self (pre ++ d :: post) acc
  = (Raise e,
     set_delegates self
       (kept ++ filter (λ d, is_refused (fetch d) = false) pre ++ d :: post)).
Proof.
  intros self kept acc Hds Hkept Hpre Hd He. revert self kept acc Hds Hkept.
  induction pre as [|[addr port] rest IH]; intros self kept acc Hds Hkept.
  - destruct d as [addr port]. cbn [app services_loop]. cbn [fst snd] in Hd.
    rewrite Hd. rewrite filter_nil. cbn [app] in Hds |- *.
    rewrite <- Hds, set_delegates_same. by destruct e.
  - apply Forall_cons in Hpre as [Hb Hpre].
    cbn [app services_loop].
    destruct (contribution_evicting _ Hb) as [(part & Hf & Hr)|[Hf Hr]];
      cbn [fst snd] in Hf, Hr.
    + rewrite Hf.
      rewrite (IH Hpre self (kept ++ [(addr, port)]) (acc ++ part)).
      * rewrite filter_cons_True by done. by rewrite <- !app_assoc.
      * by rewrite <- app_assoc.
      * apply Forall_app. split; first done. by constructor.
    + rewrite Hf, Hds. cbn [app]. rewrite list_remove_first_middle.
      * rewrite (IH Hpre (set_delegates self (kept ++ rest ++ d :: post)) kept acc);
          [|done..].
        rewrite filter_cons_False by (cbn [fst snd]; by rewrite Hr).
        by rewrite set_delegates_twice.
      * intros Hin. rewrite Forall_forall in Hkept.
        specialize (Hkept _ Hin). cbn [fst snd] in Hkept. congruence.
Qed.

(** Whatever the network does, the loop only ever removes delegates. *)
Lemma services_loop_shrinks (pending : list (string * Z)) : ∀ self acc,
  _addr (loop self pending acc).2 = _addr self
  ∧ _registry (loop self pending acc).2 = _registry self
  ∧ _delegates (loop self pending acc).2 ⊆ _delegates self.
Proof.
  induction pending as [|[addr port] rest IH]; intros self acc; first done.
  cbn [services_loop].
  destruct (_get_remote_services _ _ _ addr port) as [add|e]; first apply IH.
  destruct e; try done.
  destruct (list_remove_first _ _) as [ds|] eqn:Hrm; last done.
  destruct (IH (set_delegates self ds) acc) as (Ha & Hr & Hd).
  split_and!; [done..|].
  etrans; first exact Hd. by eapply list_remove_first_subseteq.
Qed.

(** C1, as the code has it. On [GET /services] the handler starts from the
    registry's snapshot and fetches [/services] from every delegate
    registered when the request starts, in order. A delegate whose fetch
    raises [ConnectionRefusedError] is removed from [_delegates] and the
    loop goes on. When every delegate answers or refuses, the handler
    responds 200 with the snapshot followed by the answers, and the
    delegates left are those that did not refuse. Any other exception of a
    fetch (a timeout, a status other than 200, a malformed body) is not
    caught: it leaves the handler before anything is sent, so there is no
    200 response; the delegate that raised it and the ones after it stay
    registered, and the evictions made before it stand. *)
Theorem services_handler_spec self (handler : Request) :
  path handler = "/services" →
  (Forall (λ d, is_Some (contribution evicting (fetch d))) (_delegates self) →
     handle_get self handler
     = (Ok (SendResponse 200 [("Content-type", "application/json")]
              (json_dumps (PList ((λ s, PDict (model_dump s)) <$>
                 (services (_registry self) ++
                  concat ((λ d, default [] (contribution evicting (fetch d)))
                            <$> _delegates self)))))),
        set_delegates self
          (filter (λ d, is_refused (fetch d) = false) (_delegates self))))
  ∧ (∀ pre d post e,
       _delegates self = pre ++ d :: post →
       Forall (λ d, is_Some (contribution evicting (fetch d))) pre →
       fetch d = Raise e → e ≠ ConnectionRefusedError →
       handle_get self handler
       = (Raise e,
          set_delegates self
            (filter (λ d, is_refused (fetch d) = false) pre ++ d :: post))).
Proof.
  intros Hpath. unfold _handle_http_get. rewrite Hpath. cbn [String.eqb].
  change (String.eqb "/services" "/ping") with false.
  change (String.eqb "/services" "/services") with true. cbv iota.
  split.
  - intros Hall.
    by rewrite (services_loop_ok (_delegates self) self [] _ eq_refl (Forall_nil_2 _) Hall).
  - intros pre d post e Hds Hpre Hd He. rewrite Hds.
    by rewrite (services_loop_fail pre d post e self [] _ Hds (Forall_nil_2 _) Hpre Hd He).
Qed.

Lemma int_of_header_length (body : string) :
  int_of_header (Some (py_str (Z.of_nat (String.length body))))
  = Ok (Z.of_nat (String.length body)).
Proof. unfold int_of_header. by rewrite py_int_py_str. Qed.

Lemma read_all (body : string) :
  read body (Z.of_nat (String.length body)) = Ok body.
Proof.
  unfold read.
  destruct (Z.ltb_spec (Z.of_nat (String.length body)) (-1)); first lia.
  destruct (Z.eqb_spec (Z.of_nat (String.length body)) (-1)); first lia.
  by rewrite Nat2Z.id, substring_all.
Qed.


(** What [_add_delegate] does against a leader that shares its address. *)
Lemma add_delegate_registers self (port : Z) :
  is_ipv4 (_addr self) = true → port ≠ 28004 →
  codec_ok_for json_loads json_dumps (_addr self) port →
  _add_delegate json_loads json_dumps (_addr self) port self
  = (Ok (), set_delegates self (_delegates self ++ [(_addr self, port)])).
Proof.
  intros Hip Hport [Hutf Hrt]. unfold _add_delegate.
  destruct (Z.eqb_spec port 28004) as [|_]; first done.
  unfold _handle_http_post, add_delegate_request.
  cbn [path content_length rfile].
  change (negb (String.eqb "/add-delegate" "/add-delegate")) with false. cbv iota.
  rewrite int_of_header_length. cbn [rbind]. rewrite read_all. cbn [rbind].
  unfold decode_utf8. rewrite Hutf, Hrt.
  cbn [get_addrPort]. rewrite lookup_singleton_eq. cbn [rbind split_addr_port].
  change (":" +:+ py_str port) with (String colon (py_str port)).
  rewrite (split1_append colon _ _ (is_ipv4_no_colon _ Hip)). cbn [rbind fst snd].
  by rewrite py_int_py_str.
Qed.

Lemma leader_step_invariant self (ev : LeaderEvent) :
  is_ipv4 (_addr self) = true →
  Forall (own_delegate (_addr self)) (_delegates self) →
  event_codec_ok json_loads json_dumps (_addr self) ev →
  let self' := leader_step json_loads json_dumps validate_tuple_str_int http_get self ev in
  _addr self' = _addr self ∧ Forall (own_delegate (_addr self)) (_delegates self').
Proof.
  intros Hip Hinv Hev. destruct ev as [port|]; cbn [leader_step event_codec_ok] in *.
  - destruct (Z.eq_dec port 28004) as [->|Hport].
    + unfold _add_delegate. by change (28004 =? 28004) with true.
    + rewrite (add_delegate_registers self port Hip Hport Hev). cbn.
      split; first done. apply Forall_app. split; first done.
      by repeat constructor.
  - unfold _handle_http_get. cbn [path].
    change (String.eqb "/services" "/ping") with false.
    change (String.eqb "/services" "/services") with true. cbv iota.
    pose proof (services_loop_shrinks (_delegates self) self
                  (services (_registry self))) as (Ha & _ & Hsub).
    destruct (loop self (_delegates self) (services (_registry self)))
      as [[all|e] self1]; cbn [snd] in *.
    + split; first done. rewrite Forall_forall in Hinv |- *. auto.
    + split; first done. rewrite Forall_forall in Hinv |- *. auto.
Qed.

(** C9, as the code has it. The handler of [POST /add-delegate] checks
    neither the address nor the port it is sent. What holds is: in a leader
    on an IPv4 address whose delegates all register through
    [_add_delegate(own_addr, port)] (which asserts [port != 28004] and whose
    JSON body reaches the handler intact), every entry of [_delegates] has
    the leader's address and a port other than 28004, after every
    registration and after every eviction made by [GET /services]; and each
    such registration does append [(own_addr, port)]. *)
Theorem delegates_invariant self (evs : list LeaderEvent) :
  is_ipv4 (_addr self) = true →
  Forall (own_delegate (_addr self)) (_delegates self) →
  Forall (event_codec_ok json_loads json_dumps (_addr self)) evs →
  Forall (own_delegate (_addr self))
    (_delegates (leader_run json_loads json_dumps validate_tuple_str_int http_get self evs))
  ∧ (∀ port, Registers port ∈ evs → port ≠ 28004 →
       _add_delegate json_loads json_dumps (_addr self) port self
       = (Ok (), set_delegates self (_delegates self ++ [(_addr self, port)]))).
Proof.
  intros Hip Hinv Hevs. split.
  - unfold leader_run. revert self Hip Hinv Hevs.
    induction evs as [|ev evs IH]; intros self Hip Hinv Hevs; first done.
    apply Forall_cons in Hevs as [Hev Hevs]. cbn [foldl].
    destruct (leader_step_invariant self ev Hip Hinv Hev) as [Ha Hd].
    rewrite <- Ha in *. by apply IH.
  - intros port Hin Hport. apply add_delegate_registers; [done..|].
    rewrite Forall_forall in Hevs. apply (Hevs _ Hin).
Qed.

End NodeFacts.

End Verified.

(** ** The statements on concrete runs *)

Section Runs.

Import Scenario.

#[local] Existing Instance tables.

(** Re-advertising port 42 on a registry that holds it, then two calls on
    other ports. *)
Lemma advertise_then_snapshot_witness :
  ∃ self1,
    advertise_service
      (mkRegistry "100.64.0.1" [mkService "old" ∅ ("100.64.0.1", 42);
                                mkService "web" ∅ ("100.64.0.1", 80)])
      42 "fuedle" ∅ = (Ok (), self1)
    ∧ filter (port_is 42) (services (registry_run self1 [Unlist 80; Advertise 7 "x" ∅]))
      = [mkService "fuedle" ∅ ("100.64.0.1", 42)].
Proof.
  destruct (advertise_then_snapshot
    (mkRegistry "100.64.0.1" [mkService "old" ∅ ("100.64.0.1", 42);
                              mkService "web" ∅ ("100.64.0.1", 80)])
    42 "fuedle" ∅ [Unlist 80; Advertise 7 "x" ∅])
    as (self1 & H1 & _ & _ & H2).
  - reflexivity.
  - apply (bool_decide_unpack _). vm_compute. exact I.
  - lia.
  - repeat constructor; cbn; lia.
  - exists self1. split; assumption.
Defined.

(** Unlisting a port that is absent, and one that is present. *)
Lemma unlist_service_spec_witness :
  unlist_service (mkRegistry "100.64.0.1" [mkService "web" ∅ ("100.64.0.1", 80)]) 42
  = (Raise KeyError, mkRegistry "100.64.0.1" [mkService "web" ∅ ("100.64.0.1", 80)])
  ∧ ∃ pre old post,
      [mkService "web" ∅ ("100.64.0.1", 80); mkService "db" ∅ ("100.64.0.1", 5432)]
      = pre ++ old :: post
      ∧ unlist_service
          (mkRegistry "100.64.0.1"
             [mkService "web" ∅ ("100.64.0.1", 80); mkService "db" ∅ ("100.64.0.1", 5432)])
          5432
        = (Ok (), mkRegistry "100.64.0.1" (pre ++ post))
      ∧ 5432 ∉ service_port <$> (pre ++ post).
Proof.
  split.
  - apply (unlist_service_spec
             (mkRegistry "100.64.0.1" [mkService "web" ∅ ("100.64.0.1", 80)]) 42).
    cbn. intros [H|H]%elem_of_cons; [lia|by apply elem_of_nil in H].
  - destruct (proj2 (unlist_service_spec
        (mkRegistry "100.64.0.1"
           [mkService "web" ∅ ("100.64.0.1", 80); mkService "db" ∅ ("100.64.0.1", 5432)])
        5432)) as (pre & old & post & H1 & _ & _ & H2 & H3).
    + cbn. right. left.
    + exists pre, old, post. split_and!; [exact H1|exact H2|].
      apply H3. apply (bool_decide_unpack _). vm_compute. exact I.
Defined.

(** On the registry that holds ports 10 and 20: advertising port 10 again
    returns, and unlisting it returns. *)
Lemma registry_invariant_witness :
  (advertise_service
     (registry_run (new_registry A) [Advertise 10 "x" ∅; Advertise 20 "y" ∅])
     10 "z" ∅).1 = Ok ()
  ∧ (unlist_service
       (registry_run (new_registry A) [Advertise 10 "x" ∅; Advertise 20 "y" ∅])
       10).1 = Ok ().
Proof.
  destruct (registry_invariant A [Advertise 10 "x" ∅; Advertise 20 "y" ∅])
    as (_ & Hadv & Hunl).
  split.
  - apply (Hadv 10 "z" ∅); [lia|reflexivity].
  - apply (Hunl 10). vm_compute. left.
Defined.

(** The round trip on the Service [y] of the scenarios. *)
Lemma wire_round_trip_witness :
  validate_service validate_tuple_str_int (PDict (model_dump y)) = Some y.
Proof.
  apply (wire_round_trip validate_tuple_str_int y). reflexivity.
Defined.

(** A leader advertising [x] with a delegate that refuses and one that
    answers [[y]]: the reply is 200 with [[x, y]] and the first delegate is
    gone. *)
Lemma services_handler_spec_witness :
  _handle_http_get json_loads json_dumps validate_tuple_str_int net leader get_services
  = (Ok (SendResponse 200 [("Content-type", "application/json")] x_y_text),
     mkNode A (mkRegistry A [x]) [(A, 40001)]).
Proof.
  rewrite (proj1 (services_handler_spec json_loads json_dumps validate_tuple_str_int
                    net leader get_services eq_refl)).
  - vm_compute. reflexivity.
  - repeat constructor; vm_compute; eexists; reflexivity.
Defined.

(** Counterexample to C1 as stated: with a delegate whose fetch times out, answers
    503, or answers a body that is not JSON, the handler sends no response
    at all; the exception leaves it. *)
Lemma services_handler_counterexample :
  _handle_http_get json_loads json_dumps validate_tuple_str_int net_timeout
    leader get_services
  = (Raise TimeoutError, leader)
  ∧ _handle_http_get json_loads json_dumps validate_tuple_str_int net_garbage
      leader get_services
    = (Raise JSONDecodeError, leader)
  ∧ _handle_http_get json_loads json_dumps validate_tuple_str_int net_503
      leader get_services
    = (Raise (MinidiscError
               ("Error fetching minidisc services, status 503, reason " +:+
                q "Service Unavailable")), leader).
Proof. split_and!; vm_compute; reflexivity. Qed.

(** Looking for [y] with [env = prod] on a mesh whose one peer lists
    [[x, y]]. *)
Lemma find_service_spec_witness :
  ∃ r, find_service json_loads validate_tuple_str_int net (ipn A) "y" {[ "env" := "prod" ]}
       = Ok r
    ∧ (is_Some r ↔ ∃ s, s ∈ [x; y] ∧ name s = "y"
         ∧ ∀ k v, ({[ "env" := "prod" ]} : gmap string string) !! k = Some v
                  → labels s !! k = Some v)
    ∧ (∀ ap, r = Some ap →
         ∃ pre s post, [x; y] = pre ++ s :: post
           ∧ service_matches "y" {[ "env" := "prod" ]} s ∧ ap = addr_port s
           ∧ Forall (λ t, ¬ service_matches "y" {[ "env" := "prod" ]} t) pre).
Proof.
  apply (find_service_spec json_loads validate_tuple_str_int net (ipn A)
           "y" {[ "env" := "prod" ]} [x; y]).
  vm_compute. reflexivity.
Defined.

(** One peer, which answers [[x, y]]. *)
Lemma list_services_errors_witness :
  list_services json_loads validate_tuple_str_int net (ipn A) = Ok [x; y].
Proof.
  rewrite (proj1 (list_services_errors json_loads validate_tuple_str_int net (ipn A)
                    [A] eq_refl)).
  - vm_compute. reflexivity.
  - repeat constructor; vm_compute; eexists; reflexivity.
Defined.

(** Counterexample to C5 as stated: the exception a broken peer causes never holds the
    peer's address. After a 503 it is the module's [Error] with the status
    and the reason, the same for a peer on another address; after a body
    that is not JSON it is [JSONDecodeError]. *)
Lemma list_services_counterexample :
  list_services json_loads validate_tuple_str_int net_503 (ipn A)
  = Raise (MinidiscError
             ("Error fetching minidisc services, status 503, reason " +:+
              q "Service Unavailable"))
  ∧ is_infix A ("Error fetching minidisc services, status 503, reason " +:+
                q "Service Unavailable") = false
  ∧ list_services json_loads validate_tuple_str_int net_503 (ipn "100.64.0.2")
    = list_services json_loads validate_tuple_str_int net_503 (ipn A)
  ∧ list_services json_loads validate_tuple_str_int net_garbage (ipn A)
    = Raise JSONDecodeError.
Proof. split_and!; vm_compute; reflexivity. Qed.



(** Two delegates register with a fresh leader, with a [GET /services] in
    between. *)
Lemma delegates_invariant_witness :
  Forall (own_delegate A)
    (_delegates (leader_run json_loads json_dumps validate_tuple_str_int net
                   fresh_leader [Registers 40000; GetServices; Registers 40001])).
Proof.
  apply (delegates_invariant json_loads json_dumps validate_tuple_str_int net
           fresh_leader [Registers 40000; GetServices; Registers 40001]).
  - reflexivity.
  - constructor.
  - repeat constructor; vm_compute; reflexivity.
Defined.

(** Counterexample to C9 as stated: a leader on 100.64.0.1 answers 200 to a post of
    [10.0.0.9:28004] and registers that pair, which has neither the
    leader's address nor a port other than 28004. *)
Lemma delegates_invariant_counterexample :
  _handle_http_post json_loads fresh_leader (post (addrPort_text "10.0.0.9:28004"))
  = (Ok (SendResponse 200 [] ""), mkNode A (new_registry A) [("10.0.0.9", 28004)])
  ∧ "10.0.0.9" ≠ _addr fresh_leader
  ∧ ¬ own_delegate (_addr fresh_leader) ("10.0.0.9", 28004).
Proof.
  split_and!.
  - vm_compute. reflexivity.
  - done.
  - intros [H _]. done.
Qed.

End Runs.

(** * Further properties of the code *)

Section Further.

Context {uni : UnicodeTables}.

(** ** The registry: how calls compose *)

Section RegistryLaws.

Implicit Types (self : _RegistryImpl) (p : Z) (l : list Service).

Lemma list_find_middle l1 l2 p (e : Service) :
  Forall (λ s, service_port s ≠ p) l1 → service_port e = p →
  list_find (port_is p) (l1 ++ e :: l2) = Some (length l1, e).
Proof.
  intros Hpre He. apply list_find_Some. split_and!.
  - by apply list_lookup_middle.
  - done.
  - intros j y Hj Hlt. rewrite lookup_app_l in Hj by done.
    rewrite Forall_lookup in Hpre. by apply (Hpre j).
Qed.

Lemma list_find_absent l p :
  Forall (λ s, service_port s ≠ p) l → list_find (port_is p) l = None.
Proof. intros H. by apply list_find_None. Qed.

Lemma advertise_service_Ok_inv self p nm lbls :
  (advertise_service self p nm lbls).1 = Ok () →
  0 < p < 65536 ∧ is_ipv4 (reg_addr self) = true.
Proof.
  unfold advertise_service.
  destruct (Z.ltb_spec 0 p); destruct (Z.ltb_spec p (2 ^ 16)); cbn [andb negb]; try done.
  destruct (new_service _ _ _ _) as [e|ex] eqn:He; last done.
  apply new_service_inv in He as [_ Hip]. intros _. split; [lia|done].
Qed.

Lemma registry_eta self : mkRegistry (reg_addr self) (_services self) = self.
Proof. by destruct self. Qed.

(** X1. The last [advertise_service] on a port wins: advertising a port
    and then advertising it again gives the very outcome and registry that
    the second call alone gives, whatever the registry and the arguments.
    In particular advertising the same service twice is the same as once. *)
Theorem advertise_overwrites self p (n1 n2 : string) (l1 l2 : gmap string string) :
  advertise_service (advertise_service self p n1 l1).2 p n2 l2
  = advertise_service self p n2 l2.
Proof.
  pose proof (advertise_service_Ok_inv self p n1 l1) as Hok. revert Hok.
  destruct (advertise_service_shape self p n1 l1)
    as [ex|pre old post Hl Hold Hpre|Hall]; cbn [fst snd]; intros Hok; first done.
  - destruct (Hok eq_refl) as [Hp Hip].
    unfold advertise_service. cbn [reg_addr _services].
    assert (negb ((0 <? p) && (p <? 2 ^ 16)) = false) as ->.
    { apply negb_false_iff, andb_true_iff. split; apply Z.ltb_lt; lia. }
    rewrite (new_service_ok _ p n2 l2 Hip).
    rewrite Hl, insert_middle.
    rewrite (list_find_middle pre post p (mkService n1 l1 (reg_addr self, p)) Hpre eq_refl).
    rewrite (list_find_middle pre post p old Hpre Hold).
    by rewrite !insert_middle.
  - destruct (Hok eq_refl) as [Hp Hip].
    unfold advertise_service. cbn [reg_addr _services].
    assert (negb ((0 <? p) && (p <? 2 ^ 16)) = false) as ->.
    { apply negb_false_iff, andb_true_iff. split; apply Z.ltb_lt; lia. }
    rewrite (new_service_ok _ p n2 l2 Hip).
    rewrite (list_find_middle (_services self) [] p
               (mkService n1 l1 (reg_addr self, p)) Hall eq_refl).
    rewrite (list_find_absent _ p Hall).
    by rewrite insert_middle.
Qed.

(** X2. On a registry that holds no entry of port [p], advertising [p] and
    then unlisting it gives the registry back exactly as it was; the unlist
    returns normally when the advertise did and raises [KeyError] when the
    advertise raised. *)
Theorem advertise_unlist_restores self p (nm : string) (lbls : gmap string string) :
  p ∉ ports self →
  (unlist_service (advertise_service self p nm lbls).2 p).2 = self
  ∧ ((advertise_service self p nm lbls).1 = Ok () →
       (unlist_service (advertise_service self p nm lbls).2 p).1 = Ok ())
  ∧ ((advertise_service self p nm lbls).1 ≠ Ok () →
       (unlist_service (advertise_service self p nm lbls).2 p).1 = Raise KeyError).
Proof.
  intros Hp. apply ports_not_elem in Hp.
  destruct (advertise_service_shape self p nm lbls)
    as [ex|pre old post Hl Hold Hpre|Hall]; cbn [fst snd].
  - unfold unlist_service. by rewrite (list_find_absent _ p Hp).
  - exfalso. rewrite Hl in Hp. apply Forall_app in Hp as [_ Hp].
    by apply Forall_cons in Hp as [Hp _].
  - unfold unlist_service. cbn [reg_addr _services].
    rewrite (list_find_middle (_services self) [] p
               (mkService nm lbls (reg_addr self, p)) Hall eq_refl).
    by rewrite delete_middle, app_nil_r, registry_eta.
Qed.

Lemma registry_call_keeps_absent self c p :
  (∀ nm lbls, c ≠ Advertise p nm lbls) →
  p ∉ ports self → p ∉ ports (registry_call self c).
Proof.
  unfold ports. intros Hc Hp. destruct c as [q nm lbls|q]; cbn [registry_call].
  - assert (q ≠ p) as Hq by (intros ->; by apply (Hc nm lbls)).
    destruct (advertise_service_shape self q nm lbls)
      as [ex|pre old post Hl Hold Hpre|Hall]; cbn [snd _services]; first done.
    + rewrite Hl, insert_middle. rewrite Hl in Hp.
      by rewrite !fmap_app, !fmap_cons, Hold in *.
    + rewrite fmap_app. apply not_elem_of_app. split; first done.
      cbn. intros [->|[]%elem_of_nil]%elem_of_cons. done.
  - destruct (unlist_service_shape self q)
      as [Hall|pre old post Hl Hold Hpre]; cbn [snd _services]; first done.
    rewrite Hl, delete_middle. rewrite Hl in Hp.
    rewrite fmap_app, fmap_cons in Hp. rewrite fmap_app.
    apply not_elem_of_app in Hp as [Hp1 Hp2].
    apply not_elem_of_cons in Hp2 as [_ Hp2].
    by apply not_elem_of_app.
Qed.

(** X3. In a registry reached from an empty one, once [unlist_service(p)]
    has been called, whether it returned or raised, no entry of port [p] is
    left, and none appears until [p] is advertised again: every snapshot
    taken after further calls that do not advertise [p] is free of [p]. *)
Theorem unlist_then_absent (addr : string) (cs cs' : list RegistryCall) p :
  Forall (λ c, ∀ nm lbls, c ≠ Advertise p nm lbls) cs' →
  p ∉ ports (registry_run
               (unlist_service (registry_run (new_registry addr) cs) p).2 cs').
Proof.
  intros Hcs'.
  assert (Hnd : NoDup (ports (registry_run (new_registry addr) cs))).
  { apply registry_run_NoDup. unfold ports. cbn. constructor. }
  set (r := registry_run (new_registry addr) cs) in *.
  assert (Hp : p ∉ ports (unlist_service r p).2).
  { destruct (unlist_service_shape r p) as [Hall|pre old post Hl Hold Hpre];
      cbn [snd]; first by apply ports_not_elem.
    unfold ports in *. cbn [_services]. rewrite Hl, delete_middle.
    rewrite Hl in Hnd. apply ports_not_elem, Forall_app. split; first done.
    by eapply NoDup_ports_after. }
  revert Hp. generalize (unlist_service r p).2. clear Hnd r.
  unfold registry_run.
  induction cs' as [|c cs' IH]; intros r Hp; first done.
  apply Forall_cons in Hcs' as [Hc Hcs']. cbn [foldl].
  apply IH; first done. by apply registry_call_keeps_absent.
Qed.

(** X4. [advertise_service] returns normally exactly when the port lies in
    [1, 65535] and the registry's address is a valid IPv4 string. A port
    outside the range raises [AssertionError]; a port in the range on another
    address raises [ValidationError]; and a call that raises leaves the
    registry as it was. *)
Theorem advertise_service_errors self p (nm : string) (lbls : gmap string string) :
  ((advertise_service self p nm lbls).1 = Ok ()
     ↔ 0 < p < 65536 ∧ is_ipv4 (reg_addr self) = true)
  ∧ (¬ 0 < p < 65536 →
       advertise_service self p nm lbls = (Raise AssertionError, self))
  ∧ (0 < p < 65536 → is_ipv4 (reg_addr self) = false →
       advertise_service self p nm lbls = (Raise ValidationError, self))
  ∧ ((advertise_service self p nm lbls).1 ≠ Ok () →
       (advertise_service self p nm lbls).2 = self).
Proof.
  split_and!.
  - split; first apply advertise_service_Ok_inv.
    intros [Hp Hip]. by apply advertise_service_ok.
  - intros Hp. unfold advertise_service.
    destruct (Z.ltb_spec 0 p); destruct (Z.ltb_spec p (2 ^ 16));
      cbn [andb negb]; try done. lia.
  - intros Hp Hip. unfold advertise_service.
    assert (negb ((0 <? p) && (p <? 2 ^ 16)) = false) as ->.
    { apply negb_false_iff, andb_true_iff. split; apply Z.ltb_lt; lia. }
    destruct (new_service _ _ _ _) as [e|ex] eqn:He.
    + apply new_service_inv in He as [_ He]. congruence.
    + unfold new_service in He.
      destruct (parse_addr_port_str _); [done|by injection He as <-].
  - destruct (advertise_service_shape self p nm lbls); cbn [fst snd]; done.
Qed.

Lemma registry_call_entries (addr : string) self c :
  reg_addr self = addr → Forall (entry_ok addr) (_services self) →
  (_services self ≠ [] → is_ipv4 addr = true) →
  reg_addr (registry_call self c) = addr
  ∧ Forall (entry_ok addr) (_services (registry_call self c))
  ∧ (_services (registry_call self c) ≠ [] → is_ipv4 addr = true).
Proof.
  intros Ha Hall Hne. destruct c as [p nm lbls|p]; cbn [registry_call].
  - pose proof (advertise_service_Ok_inv self p nm lbls) as Hok. revert Hok.
    destruct (advertise_service_shape self p nm lbls)
      as [ex|pre old post Hl Hold Hpre|Hnone]; cbn [fst snd reg_addr _services];
      intros Hok; first done.
    + destruct (Hok eq_refl) as [Hp Hip]. split_and!; [done| |by rewrite <- Ha].
      apply Forall_insert; first done. by rewrite <- Ha.
    + destruct (Hok eq_refl) as [Hp Hip]. split_and!; [done| |by rewrite <- Ha].
      apply Forall_app. split; first done. constructor; last done.
      by rewrite <- Ha.
  - destruct (unlist_service_shape self p)
      as [Hnone|pre old post Hl Hold Hpre]; cbn [snd reg_addr _services];
      first done.
    split_and!; [done|by apply Forall_delete|].
    intros _. apply Hne. rewrite Hl. by destruct pre.
Qed.

(** X5. In every registry reached from [_RegistryImpl(addr)] by any calls,
    each entry carries the address [addr] and a port in [1, 65535]; the
    registry's address never changes; and a registry that holds an entry at
    all is one whose address is a valid IPv4 string. *)
Theorem registry_entries_invariant (addr : string) (cs : list RegistryCall) :
  reg_addr (registry_run (new_registry addr) cs) = addr
  ∧ Forall (λ s, (addr_port s).1 = addr ∧ 0 < service_port s < 65536)
      (_services (registry_run (new_registry addr) cs))
  ∧ (_services (registry_run (new_registry addr) cs) ≠ [] → is_ipv4 addr = true).
Proof.
  assert (H : ∀ r, reg_addr r = addr → Forall (entry_ok addr) (_services r) →
            (_services r ≠ [] → is_ipv4 addr = true) →
            reg_addr (registry_run r cs) = addr
            ∧ Forall (entry_ok addr) (_services (registry_run r cs))
            ∧ (_services (registry_run r cs) ≠ [] → is_ipv4 addr = true)).
  { unfold registry_run. induction cs as [|c cs IH]; intros r Ha Hall Hne; first done.
    cbn [foldl].
    destruct (registry_call_entries addr r c Ha Hall Hne) as (Ha' & Hall' & Hne').
    by apply IH. }
  apply H; [done|constructor|done].
Qed.

End RegistryLaws.

(** ** The wire form: what the validator accepts *)

Section WireLaws.

Variable validate_tuple_str_int : pyval → option (string * Z).

Lemma split1_Some (sep : ascii) (s h t : string) :
  split1 sep s = Some (h, t) → s = h +:+ String sep t ∧ occurs sep h = false.
Proof.
  revert h. induction s as [|c r IH]; intros h; first done.
  cbn [split1]. destruct (Ascii.eqb_spec c sep) as [->|Hne].
  - by intros [= <- <-].
  - destruct (split1 sep r) as [[h' t']|]; last done.
    intros [= <- <-]. destruct (IH h' eq_refl) as [-> Hocc].
    split; first done. cbn [occurs]. rewrite Hocc.
    by destruct (Ascii.eqb_spec c sep).
Qed.

Lemma parse_addr_port_str_inv (v h : string) (p : Z) :
  parse_addr_port_str v = Some (h, p) →
  ∃ t, v = h +:+ ":" +:+ t ∧ is_ipv4 h = true ∧ py_int t = Some p.
Proof.
  unfold parse_addr_port_str.
  destruct (split1 colon v) as [[h' t]|] eqn:Hs; last done.
  destruct (is_ipv4 h') eqn:Hip; last done.
  destruct (py_int t) as [p'|] eqn:Hp; last done.
  intros [= <- <-]. apply split1_Some in Hs as [-> _]. by exists t.
Qed.

(** X7. Decoding normalises: when the validator accepts a wire string,
    however its port is written (a sign, leading zeros, underscores or
    white space are all read by [int]), the string that
    [serialize_addr_port] writes for the result is accepted too and decodes
    to the same pair. *)
Theorem parse_serialize_stable (v : string) (ap : string * Z) :
  parse_addr_port_str v = Some ap →
  parse_addr_port_str (serialize_addr_port ap) = Some ap.
Proof.
  destruct ap as [h p]. intros (t & _ & Hip & _)%parse_addr_port_str_inv.
  by apply parse_serialize.
Qed.

Lemma validate_dump (s : Service) :
  validate_service validate_tuple_str_int (PDict (model_dump s))
  = if is_ipv4 (addr_port s).1 then Some s else None.
Proof.
  destruct s as [nm lbls [h p]]. cbn [addr_port fst].
  unfold validate_service.
  assert (model_dump (mkService nm lbls (h, p)) !! "addrPort"
          = Some (PStr (h +:+ ":" +:+ py_str p))) as -> by done.
  assert (model_dump (mkService nm lbls (h, p)) !! "name" = Some (PStr nm)) as -> by done.
  assert (model_dump (mkService nm lbls (h, p)) !! "labels"
          = Some (PDict (PStr <$> lbls))) as -> by done.
  cbn [mbind option_bind as_str parse_addr_port].
  rewrite validate_labels_dump. cbn [mbind option_bind].
  destruct (is_ipv4 h) eqn:Hip.
  - by rewrite (parse_serialize h p Hip).
  - destruct (parse_addr_port_str _) as [ap|] eqn:Hap; last done.
    apply parse_serialize_inv in Hap as [_ Hap]. congruence.
Qed.

Lemma validate_dump_list (l : list Service) :
  mapM (validate_service validate_tuple_str_int) ((λ s, PDict (model_dump s)) <$> l)
  = if forallb (λ s, is_ipv4 (addr_port s).1) l then Some l else None.
Proof.
  induction l as [|s l IH]; first done.
  cbn [fmap list_fmap mapM forallb]. rewrite validate_dump.
  change (list_fmap _ _ ?f l) with (f <$> l). rewrite IH.
  destruct (is_ipv4 (addr_port s).1); last done.
  by destruct (forallb _ l).
Qed.

(** X8. A list of Services survives the wire as a whole or not at all:
    validating the dumps of a list gives the list back when every address
    in it is a valid IPv4 string, and raises [ValidationError] for the whole
    list as soon as one address is not. *)
Theorem service_list_round_trip (l : list Service) :
  (Forall (λ s, is_ipv4 (addr_port s).1 = true) l →
     validate_service_list validate_tuple_str_int
       (PList ((λ s, PDict (model_dump s)) <$> l)) = Ok l)
  ∧ (Exists (λ s, is_ipv4 (addr_port s).1 = false) l →
       validate_service_list validate_tuple_str_int
         (PList ((λ s, PDict (model_dump s)) <$> l)) = Raise ValidationError).
Proof.
  unfold validate_service_list. rewrite validate_dump_list. split.
  - intros Hall. assert (forallb (λ s, is_ipv4 (addr_port s).1) l = true) as ->; last done.
    apply forallb_forall. intros s Hs%list_elem_of_In.
    rewrite Forall_forall in Hall. by apply Hall.
  - intros Hex. assert (forallb (λ s, is_ipv4 (addr_port s).1) l = false) as ->; last done.
    apply not_true_is_false. intros Hall.
    rewrite forallb_forall in Hall. apply Exists_exists in Hex as (s & Hs & Hbad).
    apply list_elem_of_In in Hs. specialize (Hall s Hs). congruence.
Qed.

End WireLaws.

(** ** The client: matching and listing *)

Section ClientLaws.

Variable json_loads : string → result pyval.
Variable validate_tuple_str_int : pyval → option (string * Z).
Variable http_get : string → Z → string → result HTTPResponse.
Variable _read_ipn_status : result IpnStatus.

#[local] Abbreviation fetch :=
  (_get_remote_services json_loads validate_tuple_str_int http_get).
#[local] Abbreviation lloop :=
  (list_services_loop json_loads validate_tuple_str_int http_get).


(** X10. Asking for fewer labels never loses a match: when the scan finds a
    Service for a name and labels, it also finds one for the same name and
    any labels the first request includes; and when no Service has the
    name, it finds none whatever the labels. *)
Theorem find_service_relaxes (svcs : list Service) (nm : string)
    (lbls lbls' : gmap string string) :
  (_labels_match lbls' lbls = true →
     is_Some (find_service_loop svcs nm lbls) →
     is_Some (find_service_loop svcs nm lbls'))
  ∧ (Forall (λ s, name s ≠ nm) svcs → find_service_loop svcs nm lbls = None).
Proof.
  split.
  - rewrite labels_match_superset. intros Hsub [ap Hap].
    apply find_service_loop_Some in Hap as (pre & s & post & -> & [Hn Hl] & _).
    destruct (find_service_loop (pre ++ s :: post) nm lbls') eqn:Hf; first done.
    rewrite find_service_loop_None, Forall_app, Forall_cons in Hf.
    destruct Hf as (_ & Hs & _). exfalso. apply Hs. split; first done.
    intros k v Hk. by apply Hl, Hsub.
  - intros Hall. apply find_service_loop_None.
    eapply Forall_impl; first exact Hall. by intros s Hs [Hn _].
Qed.

(** X11. Peers that refuse the connection or time out are invisible to
    [list_services]: the loop over a list of addresses gives the very
    result, value or exception, that it gives over the list with those
    addresses removed. *)
Theorem list_services_skips (addrs : list string) (acc : list Service) :
  lloop addrs acc
  = lloop (filter (λ a, skipped (fetch a DISCOVERY_PORT) = false) addrs) acc.
Proof.
  revert acc. induction addrs as [|a addrs IH]; intros acc; first done.
  destruct (skipped (fetch a DISCOVERY_PORT)) eqn:Hs.
  - rewrite filter_cons_False by congruence.
    cbn [list_services_loop].
    destruct (fetch a DISCOVERY_PORT) as [part|e]; first done.
    destruct e; try done; apply IH.
  - rewrite filter_cons_True by done.
    cbn [list_services_loop].
    destruct (fetch a DISCOVERY_PORT) as [part|e]; first apply IH.
    by destruct e.
Qed.

Lemma list_services_loop_Ok_inv (addrs : list string) : ∀ acc svcs,
  lloop addrs acc = Ok svcs →
  Forall (λ a, is_Some (contribution swallowed (fetch a DISCOVERY_PORT))) addrs.
Proof.
  induction addrs as [|a addrs IH]; intros acc svcs Hok; first constructor.
  cbn [list_services_loop] in Hok.
  destruct (fetch a DISCOVERY_PORT) as [part|e] eqn:Hf.
  - constructor; [rewrite Hf; by exists part|by eapply IH].
  - destruct e; try done; (constructor; [rewrite Hf; by exists []|by eapply IH]).
Qed.

(** X12. [list_services] is all or nothing. When it returns a list, the
    mesh status was read, every address in it either answered with a valid
    list of Services or was skipped as refused or timed out, and the list
    returned is the concatenation of the answers in the order of the
    addresses: no answer is dropped, reordered or duplicated. *)
Theorem list_services_complete (svcs : list Service) :
  list_services json_loads validate_tuple_str_int http_get _read_ipn_status
  = Ok svcs →
  ∃ addrs,
    _list_tailnet_addresses _read_ipn_status = Ok addrs
    ∧ Forall (λ a, is_Some (contribution swallowed (fetch a DISCOVERY_PORT))) addrs
    ∧ svcs = concat ((λ a, default [] (contribution swallowed (fetch a DISCOVERY_PORT)))
                       <$> addrs).
Proof.
  unfold list_services.
  destruct (_list_tailnet_addresses _read_ipn_status) as [addrs|e]; last done.
  cbn [rbind]. intros Hok. exists addrs. split; first done.
  pose proof (list_services_loop_Ok_inv addrs [] svcs Hok) as Hall.
  split; first done.
  rewrite (list_services_loop_ok json_loads validate_tuple_str_int http_get
             addrs [] Hall) in Hok.
  by injection Hok as <-.
Qed.

Lemma elem_of_concat {A} (x : A) (ls : list (list A)) :
  x ∈ concat ls ↔ ∃ l, x ∈ l ∧ l ∈ ls.
Proof.
  induction ls as [|l0 ls IH]; cbn [concat].
  - split; [by intros ?%elem_of_nil|by intros (l & _ & ?%elem_of_nil)].
  - rewrite elem_of_app, IH. split.
    + intros [H|(l & Hx & Hl)]; [exists l0; split; [done|by left]|].
      exists l. split; [done|by right].
    + intros (l & Hx & [->|Hl]%elem_of_cons); [by left|right; by exists l].
Qed.

(** X13. [_list_tailnet_addresses] returns exactly the valid IPv4 strings
    among the node's own addresses and the addresses of the peers that are
    online, the node's own first; addresses of offline peers and addresses
    that are not IPv4 never appear; and when the status cannot be read its
    exception is passed on. *)
Theorem list_tailnet_addresses_spec :
  (∀ st, _read_ipn_status = Ok st →
     ∃ own others,
       _list_tailnet_addresses _read_ipn_status = Ok (own ++ others)
       ∧ own = filter (λ a, is_ipv4 a = true) (TailscaleIPs st)
       ∧ (∀ a, a ∈ own ++ others ↔
            is_ipv4 a = true
            ∧ (a ∈ TailscaleIPs st
               ∨ ∃ peer, peer ∈ Peer st ∧ Online peer = true ∧ a ∈ PeerIPs peer)))
  ∧ (∀ e, _read_ipn_status = Raise e →
       _list_tailnet_addresses _read_ipn_status = Raise e).
Proof.
  split.
  - intros st Hst. unfold _list_tailnet_addresses. rewrite Hst. cbn [rbind].
    rewrite filter_app.
    eexists _, _. split_and!; [done|done|].
    intros a. rewrite <- filter_app, list_elem_of_filter, elem_of_app.
    split; intros [Hip Hin]; (split; first done).
    + destruct Hin as [Hin|Hin]; first by left. right.
      apply elem_of_concat in Hin as (ips & Ha & Hips).
      apply list_elem_of_fmap in Hips as (peer & -> & Hpeer).
      exists peer. destruct (Online peer); [done|by apply elem_of_nil in Ha].
    + destruct Hin as [Hin|(peer & Hpeer & Hon & Ha)]; first by left. right.
      apply elem_of_concat. exists (PeerIPs peer). split; first done.
      apply list_elem_of_fmap. exists peer. by rewrite Hon.
  - intros e He. unfold _list_tailnet_addresses. by rewrite He.
Qed.

(** X14. The address [_get_own_tailnet_addresses] returns is a valid IPv4
    string and is the first address [_list_tailnet_addresses] returns, so
    the node's own discovery port is the first one [list_services] asks;
    and once the status is read, it raises [LookupError] exactly when the
    status lists no IPv4 address for the node. *)
Theorem own_address_is_listed_first :
  (∀ ip, _get_own_tailnet_addresses _read_ipn_status = Ok ip →
     is_ipv4 ip = true
     ∧ ∃ rest, _list_tailnet_addresses _read_ipn_status = Ok (ip :: rest))
  ∧ (∀ st, _read_ipn_status = Ok st →
       (_get_own_tailnet_addresses _read_ipn_status = Raise LookupError
        ↔ Forall (λ a, is_ipv4 a = false) (TailscaleIPs st))).
Proof.
  unfold _get_own_tailnet_addresses, _list_tailnet_addresses.
  split.
  - intros ip. destruct _read_ipn_status as [st|e]; last done. cbn [rbind].
    rewrite filter_app.
    destruct (filter _ (TailscaleIPs st)) as [|ip' own] eqn:Hown; first done.
    intros [= ->]. split.
    + assert (ip ∈ filter (λ a, is_ipv4 a = true) (TailscaleIPs st)) as Hin
        by (rewrite Hown; by left).
      by apply list_elem_of_filter in Hin as [Hip _].
    + by eexists.
  - intros st ->. cbn [rbind]. split.
    + destruct (filter _ (TailscaleIPs st)) as [|ip own] eqn:Hown; last done.
      intros _. apply Forall_forall. intros a Ha.
      destruct (is_ipv4 a) eqn:Hip; last done.
      assert (a ∈ filter (λ a, is_ipv4 a = true) (TailscaleIPs st)) as Hin
        by (by apply list_elem_of_filter).
      rewrite Hown in Hin. by apply elem_of_nil in Hin.
    + intros Hall.
      destruct (filter _ (TailscaleIPs st)) as [|ip own] eqn:Hown; first done.
      assert (ip ∈ filter (λ a, is_ipv4 a = true) (TailscaleIPs st)) as Hin
        by (rewrite Hown; by left).
      apply list_elem_of_filter in Hin as [Hip Hin].
      rewrite Forall_forall in Hall. specialize (Hall ip Hin). congruence.
Qed.

End ClientLaws.

(** ** Starting a registry *)

Section StartLaws.

Variable _read_ipn_status : result IpnStatus.

Lemma registry_call_addr (self : _RegistryImpl) (c : RegistryCall) :
  reg_addr (registry_call self c) = reg_addr self.
Proof.
  destruct c as [p nm lbls|p]; cbn [registry_call].
  - by destruct (advertise_service_shape self p nm lbls).
  - by destruct (unlist_service_shape self p).
Qed.

Lemma registry_run_addr (cs : list RegistryCall) : ∀ self,
  reg_addr (registry_run self cs) = reg_addr self.
Proof.
  unfold registry_run. induction cs as [|c cs IH]; intros self; first done.
  cbn [foldl]. by rewrite IH, registry_call_addr.
Qed.

(** X15. A registry that [start_registry] returns is empty, sits on a valid
    IPv4 address, the one its node has, and the node starts with no
    delegates; so on that registry, in whatever state later calls have left
    it, [advertise_service] with a port in [1, 65535] never raises.
    [start_registry] itself raises [LookupError] when the status lists no
    IPv4 address for the node. *)
Theorem start_registry_spec :
  (∀ registry node,
     start_registry _read_ipn_status = Ok (registry, node) →
     _services registry = []
     ∧ is_ipv4 (reg_addr registry) = true
     ∧ node = mkNode (reg_addr registry) registry []
     ∧ ∀ cs p nm lbls, 0 < p < 65536 →
         (advertise_service (registry_run registry cs) p nm lbls).1 = Ok ())
  ∧ (∀ st, _read_ipn_status = Ok st →
       Forall (λ a, is_ipv4 a = false) (TailscaleIPs st) →
       start_registry _read_ipn_status = Raise LookupError).
Proof.
  unfold start_registry, _get_own_tailnet_addresses. split.
  - intros registry node.
    destruct _read_ipn_status as [st|e]; last done. cbn [rbind].
    destruct (filter _ (TailscaleIPs st)) as [|ip own] eqn:Hown; first done.
    cbn [rbind]. intros [= <- <-].
    assert (is_ipv4 ip = true) as Hip.
    { assert (ip ∈ filter (λ a, is_ipv4 a = true) (TailscaleIPs st)) as Hin
        by (rewrite Hown; by left).
      by apply list_elem_of_filter in Hin as [Hip _]. }
    split_and!; [done..|].
    intros cs p nm lbls Hp. apply advertise_service_ok; last done.
    by rewrite registry_run_addr.
  - intros st -> Hall. cbn [rbind].
    destruct (filter _ (TailscaleIPs st)) as [|ip own] eqn:Hown; first done.
    assert (ip ∈ filter (λ a, is_ipv4 a = true) (TailscaleIPs st)) as Hin
      by (rewrite Hown; by left).
    apply list_elem_of_filter in Hin as [Hip Hin].
    rewrite Forall_forall in Hall. specialize (Hall ip Hin). congruence.
Qed.

End StartLaws.

(** ** The node: what the handlers keep *)

Section NodeLaws.

Variable json_loads : string → result pyval.
Variable json_dumps : pyval → string.
Variable validate_tuple_str_int : pyval → option (string * Z).
Variable http_get : string → Z → string → result HTTPResponse.

#[local] Abbreviation fetch :=
  (λ d : string * Z,
     _get_remote_services json_loads validate_tuple_str_int http_get d.1 d.2).
#[local] Abbreviation loop :=
  (services_loop json_loads validate_tuple_str_int http_get).
#[local] Abbreviation handle_get :=
  (_handle_http_get json_loads json_dumps validate_tuple_str_int http_get).
#[local] Abbreviation handle_post := (_handle_http_post json_loads).

Implicit Types (self : _MinidiscNode) (ds : list (string * Z)).

(** X16. No request changes what a node advertises or where it lives:
    after [_handle_http_get] and after [_handle_http_post], on any request
    and whatever the network does, [_addr] and [_registry] are as before. A
    [GET] can only remove delegates, and a [POST] either leaves the
    delegates as they were or adds exactly one at the end. *)
Theorem handlers_keep_node self (handler : Request) :
  (_addr (handle_get self handler).2 = _addr self
   ∧ _registry (handle_get self handler).2 = _registry self
   ∧ _delegates (handle_get self handler).2 ⊆ _delegates self)
  ∧ (_addr (handle_post self handler).2 = _addr self
     ∧ _registry (handle_post self handler).2 = _registry self
     ∧ (_delegates (handle_post self handler).2 = _delegates self
        ∨ ∃ d, _delegates (handle_post self handler).2 = _delegates self ++ [d])).
Proof.
  split.
  - unfold _handle_http_get.
    destruct (String.eqb (path handler) "/ping"); first done.
    destruct (String.eqb (path handler) "/services"); last done.
    pose proof (services_loop_shrinks json_loads validate_tuple_str_int http_get
                  (_delegates self) self (services (_registry self))) as H.
    by destruct (loop self (_delegates self) (services (_registry self)))
      as [[all|e] self1].
  - unfold _handle_http_post.
    destruct (negb _); first (split_and!; [done..|by left]).
    destruct (int_of_header (content_length handler)) as [n|e]; cbn [rbind];
      last (split_and!; [done..|by left]).
    destruct (read (rfile handler) n) as [raw|e]; cbn [rbind];
      last (split_and!; [done..|by left]).
    destruct (decode_utf8 raw) as [body|]; last (split_and!; [done..|by left]).
    destruct (json_loads body) as [data|e];
      last (destruct (is_ValueError e); (split_and!; [done..|by left])).
    destruct (get_addrPort data) as [v|e]; cbn [rbind];
      last (split_and!; [done..|by left]).
    destruct (split_addr_port v) as [hp|e]; cbn [rbind];
      last (split_and!; [done..|by left]).
    destruct (py_int hp.2) as [port|]; last (split_and!; [done..|by left]).
    cbn. split_and!; [done..|]. right. by eexists.
Qed.

(** X17. A node with no delegates answers [GET /services] with 200 and
    exactly its registry's snapshot, touches neither its state nor the
    network, and so cannot fail: the reply is the same for every network. *)
Theorem services_without_delegates self (handler : Request) :
  path handler = "/services" → _delegates self = [] →
  handle_get self handler
  = (Ok (SendResponse 200 [("Content-type", "application/json")]
           (json_dumps (PList ((λ s, PDict (model_dump s))
                                 <$> services (_registry self))))), self).
Proof.
  intros Hpath Hds. unfold _handle_http_get. rewrite Hpath, Hds.
  change (String.eqb "/services" "/ping") with false.
  change (String.eqb "/services" "/services") with true. by cbv iota.
Qed.

Lemma evicted_contribute_nothing ds :
  Forall (λ d, is_Some (contribution evicting (fetch d))) ds →
  concat ((λ d, default [] (contribution evicting (fetch d)))
            <$> filter (λ d, is_refused (fetch d) = false) ds)
  = concat ((λ d, default [] (contribution evicting (fetch d))) <$> ds).
Proof.
  induction 1 as [|d ds Hd _ IH]; first done.
  destruct (contribution_evicting _ Hd)
    as [(part & Hf & Hr)|[Hf Hr]].
  - rewrite filter_cons_True by done. cbn [fmap list_fmap concat].
    change (list_fmap _ _ ?f ?l) with (f <$> l). by rewrite IH.
  - rewrite filter_cons_False by (by rewrite Hr). cbn [fmap list_fmap concat].
    change (list_fmap _ _ ?f ?l) with (f <$> l).
    rewrite IH, Hf. cbn [contribution default].
    by rewrite bool_decide_eq_true_2 by (by left).
Qed.

Lemma filter_kept_twice ds :
  filter (λ d, is_refused (fetch d) = false)
    (filter (λ d, is_refused (fetch d) = false) ds)
  = filter (λ d, is_refused (fetch d) = false) ds.
Proof.
  induction ds as [|d ds IH]; first done.
  destruct (is_refused (fetch d)) eqn:Hr.
  - by rewrite filter_cons_False by congruence.
  - rewrite !filter_cons_True by done. by rewrite IH.
Qed.

(** X18. Eviction settles in one request: when every delegate answers or
    refuses, a second [GET /services] under the same network gives the very
    reply of the first and changes nothing more. *)
Theorem services_twice self (handler : Request) :
  path handler = "/services" →
  Forall (λ d, is_Some (contribution evicting (fetch d))) (_delegates self) →
  handle_get (handle_get self handler).2 handler
  = ((handle_get self handler).1, (handle_get self handler).2).
Proof.
  intros Hpath Hall. unfold _handle_http_get. rewrite Hpath.
  change (String.eqb "/services" "/ping") with false.
  change (String.eqb "/services" "/services") with true. cbv iota.
  rewrite (services_loop_ok json_loads validate_tuple_str_int http_get
             (_delegates self) self [] _ eq_refl (Forall_nil_2 _) Hall).
  cbn [fst snd app _delegates _registry set_delegates].
  set (kept := filter (λ d, is_refused (fetch d) = false) (_delegates self)).
  assert (Hkept : Forall (λ d, is_Some (contribution evicting (fetch d))) kept).
  { rewrite Forall_forall in Hall |- *.
    intros d [_ Hd]%list_elem_of_filter. by apply Hall. }
  rewrite (services_loop_ok json_loads validate_tuple_str_int http_get
             kept (mkNode (_addr self) (_registry self) kept) [] _
             eq_refl (Forall_nil_2 _) Hkept).
  cbn [fst snd app _delegates _registry _addr set_delegates].
  subst kept. by rewrite filter_kept_twice, evicted_contribute_nothing.
Qed.

(** X19. What a node serves is what a peer reads: when the response to
    [GET /services] is 200 with the [json.dumps] of the dumps of a list of
    Services on valid IPv4 addresses, as [_handle_http_get] writes it, and
    that text is UTF-8 that [json.loads] reads back, [_get_remote_services]
    returns that very list. *)
Theorem fetch_reads_reply (l : list Service) (addr : string) (port : Z)
    (rsn : string) :
  Forall (λ s, is_ipv4 (addr_port s).1 = true) l →
  utf8_valid (json_dumps (PList ((λ s, PDict (model_dump s)) <$> l))) = true →
  json_loads (json_dumps (PList ((λ s, PDict (model_dump s)) <$> l)))
  = Ok (PList ((λ s, PDict (model_dump s)) <$> l)) →
  http_get addr port "/services"
  = Ok (mkResponse 200 rsn (json_dumps (PList ((λ s, PDict (model_dump s)) <$> l)))) →
  _get_remote_services json_loads validate_tuple_str_int http_get addr port = Ok l.
Proof.
  intros Hall Hutf Hrt Hget. unfold _get_remote_services. rewrite Hget.
  cbn [rbind status reason payload].
  change (negb (200 =? 200)) with false. cbv iota.
  unfold decode_utf8. rewrite Hutf, Hrt. cbn [rbind].
  unfold validate_service_list. rewrite validate_dump_list.
  assert (forallb (λ s, is_ipv4 (addr_port s).1) l = true) as ->; last done.
  apply forallb_forall. intros s Hs%list_elem_of_In.
  rewrite Forall_forall in Hall. by apply Hall.
Qed.

(** X20. A registration shows in the next listing: after
    [_add_delegate(own_addr, port)] has registered with a leader on an IPv4
    address, a [GET /services] in which every delegate answers or refuses,
    the new one included, is answered 200 with the leader's snapshot, the
    answers of the delegates registered before and then the answer of the
    new delegate. *)
Theorem registered_delegate_is_listed self (port : Z) (handler : Request) :
  is_ipv4 (_addr self) = true → port ≠ 28004 →
  codec_ok_for json_loads json_dumps (_addr self) port →
  path handler = "/services" →
  Forall (λ d, is_Some (contribution evicting (fetch d)))
    (_delegates self ++ [(_addr self, port)]) →
  (handle_get
     (_add_delegate json_loads json_dumps (_addr self) port self).2 handler).1
  = Ok (SendResponse 200 [("Content-type", "application/json")]
          (json_dumps (PList ((λ s, PDict (model_dump s)) <$>
             (services (_registry self) ++
              concat ((λ d, default [] (contribution evicting (fetch d)))
                        <$> _delegates self) ++
              default [] (contribution evicting (fetch (_addr self, port)))))))).
Proof.
  intros Hip Hport Hcodec Hpath Hall.
  rewrite (add_delegate_registers json_loads json_dumps self port Hip Hport Hcodec).
  cbn [snd]. unfold _handle_http_get. rewrite Hpath.
  change (String.eqb "/services" "/ping") with false.
  change (String.eqb "/services" "/services") with true. cbv iota.
  cbn [_delegates _registry set_delegates].
  rewrite (services_loop_ok json_loads validate_tuple_str_int http_get
             (_delegates self ++ [(_addr self, port)])
             (set_delegates self (_delegates self ++ [(_addr self, port)])) []
             _ eq_refl (Forall_nil_2 _) Hall).
  cbn [fst]. rewrite (fmap_app _ (_delegates self)), concat_app.
  cbn [fmap list_fmap concat fst snd]. by rewrite app_nil_r.
Qed.

End NodeLaws.

End Further.

(** ** The further properties on concrete runs *)

Section MoreRuns.

Import Scenario.

#[local] Existing Instance tables.

(** Port 42 is new to the sample registry: advertising and unlisting it
    gives the registry back. *)
Lemma advertise_unlist_restores_witness :
  (unlist_service (advertise_service Sample.registry 42 "fuedle" ∅).2 42).2
  = Sample.registry.
Proof.
  apply (advertise_unlist_restores Sample.registry 42 "fuedle" ∅).
  cbn. intros [H|H]%elem_of_cons; [lia|by apply elem_of_nil in H].
Defined.

(** Port 42 is advertised, unlisted, and stays away while port 7 comes and
    42 is unlisted once more. *)
Lemma unlist_then_absent_witness :
  42 ∉ ports (registry_run
                (unlist_service
                   (registry_run (new_registry A) [Advertise 42 "a" ∅]) 42).2
                [Advertise 7 "b" ∅; Unlist 42]).
Proof.
  apply (unlist_then_absent A [Advertise 42 "a" ∅] [Advertise 7 "b" ∅; Unlist 42] 42).
  repeat constructor; intros nm lbls; discriminate.
Defined.

(** Port 0 fails the assertion; a registry on a host name fails the
    validation. *)
Lemma advertise_service_errors_witness :
  advertise_service (new_registry A) 0 "x" ∅
  = (Raise AssertionError, new_registry A)
  ∧ advertise_service (new_registry "localhost") 42 "x" ∅
    = (Raise ValidationError, new_registry "localhost").
Proof.
  split.
  - apply (advertise_service_errors (new_registry A) 0 "x" ∅). lia.
  - apply (advertise_service_errors (new_registry "localhost") 42 "x" ∅);
      [lia|reflexivity].
Defined.

(** A port written with a sign, an underscore and white space. *)
Lemma parse_serialize_stable_witness :
  parse_addr_port_str (serialize_addr_port (A, 80)) = Some (A, 80).
Proof.
  apply (parse_serialize_stable "100.64.0.1: +8_0 " (A, 80)). reflexivity.
Defined.

(** The list [[x, y]] comes back; a list with a Service on a host name is
    refused. *)
Lemma service_list_round_trip_witness :
  validate_service_list validate_tuple_str_int
    (PList ((λ s, PDict (model_dump s)) <$> [x; y])) = Ok [x; y]
  ∧ validate_service_list validate_tuple_str_int
      (PList ((λ s, PDict (model_dump s)) <$> [x; mkService "z" ∅ ("localhost", 1)]))
    = Raise ValidationError.
Proof.
  split.
  - apply (service_list_round_trip validate_tuple_str_int [x; y]).
    repeat constructor.
  - apply (service_list_round_trip validate_tuple_str_int
             [x; mkService "z" ∅ ("localhost", 1)]).
    right. left. reflexivity.
Defined.

(** [y] is found with [env = prod], hence with no labels; nothing is named
    [z]. *)
Lemma find_service_relaxes_witness :
  is_Some (find_service_loop [x; y] "y" ∅)
  ∧ find_service_loop [x; y] "z" {[ "env" := "prod" ]} = None.
Proof.
  split.
  - apply (find_service_relaxes [x; y] "y" {[ "env" := "prod" ]} ∅).
    + reflexivity.
    + exists (A, 20). reflexivity.
  - apply (find_service_relaxes [x; y] "z" {[ "env" := "prod" ]} ∅).
    repeat constructor; discriminate.
Defined.

(** The mesh of one peer that answers [[x, y]]. *)
Lemma list_services_complete_witness :
  ∃ addrs,
    _list_tailnet_addresses (ipn A) = Ok addrs
    ∧ Forall (λ a, is_Some (contribution swallowed
                (_get_remote_services json_loads validate_tuple_str_int net
                   a DISCOVERY_PORT))) addrs
    ∧ [x; y] = concat ((λ a, default [] (contribution swallowed
                (_get_remote_services json_loads validate_tuple_str_int net
                   a DISCOVERY_PORT))) <$> addrs).
Proof.
  apply (list_services_complete json_loads validate_tuple_str_int net (ipn A) [x; y]).
  vm_compute. reflexivity.
Defined.

(** The sample status lists 100.64.0.1 and 100.64.0.2 and nothing else. *)
Lemma list_tailnet_addresses_spec_witness :
  ∃ own others,
    _list_tailnet_addresses (Ok Sample.status) = Ok (own ++ others)
    ∧ own = filter (λ a, is_ipv4 a = true) (TailscaleIPs Sample.status)
    ∧ (∀ a, a ∈ own ++ others ↔
         is_ipv4 a = true
         ∧ (a ∈ TailscaleIPs Sample.status
            ∨ ∃ peer, peer ∈ Peer Sample.status ∧ Online peer = true
                      ∧ a ∈ PeerIPs peer)).
Proof.
  apply (proj1 (list_tailnet_addresses_spec (Ok Sample.status)) Sample.status).
  reflexivity.
Defined.

(** The node's IPv4 address comes first; a status with IPv6 only gives
    [LookupError]. *)
Lemma own_address_is_listed_first_witness :
  (is_ipv4 A = true
   ∧ ∃ rest, _list_tailnet_addresses (Ok Sample.status) = Ok (A :: rest))
  ∧ _get_own_tailnet_addresses (Ok Sample.no_ipv4) = Raise LookupError.
Proof.
  split.
  - apply (proj1 (own_address_is_listed_first (Ok Sample.status)) A). reflexivity.
  - apply (proj2 (own_address_is_listed_first (Ok Sample.no_ipv4))
             Sample.no_ipv4 eq_refl).
    repeat constructor.
Defined.

(** Started on the sample status, the registry is on 100.64.0.1 and takes
    port 65535 after any calls; started on IPv6 only, nothing starts. *)
Lemma start_registry_spec_witness :
  (advertise_service
     (registry_run (new_registry A) [Advertise 42 "a" ∅; Unlist 7]) 65535 "b" ∅).1
  = Ok ()
  ∧ start_registry (Ok Sample.no_ipv4) = Raise LookupError.
Proof.
  split.
  - destruct (proj1 (start_registry_spec (Ok Sample.status))
                (new_registry A) (new_node A (new_registry A)) eq_refl)
      as (_ & _ & _ & H).
    apply H. lia.
  - apply (proj2 (start_registry_spec (Ok Sample.no_ipv4)) Sample.no_ipv4 eq_refl).
    repeat constructor.
Defined.

(** With no delegates the reply is [[x]], even on a network that only times
    out. *)
Lemma services_without_delegates_witness :
  _handle_http_get json_loads json_dumps validate_tuple_str_int net_timeout
    Sample.lone_leader get_services
  = (Ok (SendResponse 200 [("Content-type", "application/json")] only_x_text),
     Sample.lone_leader).
Proof.
  rewrite (services_without_delegates json_loads json_dumps validate_tuple_str_int
             net_timeout Sample.lone_leader get_services eq_refl eq_refl).
  vm_compute. reflexivity.
Defined.

(** The leader of the scenarios, asked twice. *)
Lemma services_twice_witness :
  _handle_http_get json_loads json_dumps validate_tuple_str_int net
    (_handle_http_get json_loads json_dumps validate_tuple_str_int net
       leader get_services).2 get_services
  = ((_handle_http_get json_loads json_dumps validate_tuple_str_int net
        leader get_services).1,
     (_handle_http_get json_loads json_dumps validate_tuple_str_int net
        leader get_services).2).
Proof.
  apply (services_twice json_loads json_dumps validate_tuple_str_int net
           leader get_services eq_refl).
  repeat constructor; vm_compute; eexists; reflexivity.
Defined.

(** The reply [[x, y]] of the leader on port 28004, read by a peer. *)
Lemma fetch_reads_reply_witness :
  _get_remote_services json_loads validate_tuple_str_int net A 28004 = Ok [x; y].
Proof.
  apply (fetch_reads_reply json_loads json_dumps validate_tuple_str_int net
           [x; y] A 28004 "OK").
  - repeat constructor.
  - vm_compute. reflexivity.
  - vm_compute. reflexivity.
  - vm_compute. reflexivity.
Defined.

(** The delegate on port 40001, which answers [[y]], registers with a
    fresh leader and is listed. *)
Lemma registered_delegate_is_listed_witness :
  (_handle_http_get json_loads json_dumps validate_tuple_str_int net
     (_add_delegate json_loads json_dumps A 40001 fresh_leader).2 get_services).1
  = Ok (SendResponse 200 [("Content-type", "application/json")] only_y_text).
Proof.
  etrans.
  - apply (registered_delegate_is_listed json_loads json_dumps
             validate_tuple_str_int net fresh_leader 40001 get_services).
    + reflexivity.
    + lia.
    + split; vm_compute; reflexivity.
    + reflexivity.
    + repeat constructor; vm_compute; eexists; reflexivity.
  - vm_compute. reflexivity.
Defined.

(** A registry that holds an entry is on a valid IPv4 address. *)
Lemma registry_entries_invariant_witness :
  Forall (λ s, (addr_port s).1 = A ∧ 0 < service_port s < 65536)
    (_services (registry_run (new_registry A) [Advertise 42 "a" ∅; Advertise 7 "b" ∅]))
  ∧ is_ipv4 A = true.
Proof.
  destruct (registry_entries_invariant A [Advertise 42 "a" ∅; Advertise 7 "b" ∅])
    as (_ & Hall & Hip).
  split; first exact Hall.
  apply Hip. vm_compute. discriminate.
Defined.


End MoreRuns.
